(** * VaultVote: the confidential election contracts and the metadata gateway

    A shallow embedding of
    - [VaultVoteEnhanced] (per-choice encrypted counters, per-choice reveal),
    - [VaultVote] (the single-tally contract),
    - the [toggle-hidden] route with its nonce store and the file storage
      behind it,
    - the client-side [createElectionSchema],
    followed by the properties proved about them.

    The FHE library and [ethers.verifyMessage] are external to the
    repository: they are taken as parameters (a class of oracle operations,
    a section variable). *)

From Stdlib Require Import ZArith NArith Lia.
From Stdlib.Strings Require Import Ascii String Byte.
From stdpp Require Import base tactics option list strings gmap functions countable.

(** ** Solidity prelude: results of a transaction, checked arithmetic *)

Module Sol.

(** Why a call reverted: a failed [require] with its message, a compiler
    panic (0x11 arithmetic overflow, 0x32 index out of bounds), a failed
    [abi.decode], or a revert raised inside the external FHE library. *)
Inductive Reason :=
| Require (msg : string)
| Panic (code : N)
| AbiDecode
| External.

Inductive Result (A : Type) :=
| Ok (a : A)
| Revert (r : Reason).
Arguments Ok {A} a.
Arguments Revert {A} r.

Definition succeeds {A} (r : Result A) : bool :=
  match r with Ok _ => true | Revert _ => false end.

Definition uint256_max : N := 2 ^ 256 - 1.
Definition uint32_bound : N := 2 ^ 32.

(** [x++] on a [uint256] under Solidity 0.8 checked arithmetic. *)
Definition incr {A} (x : N) (k : N -> Result A) : Result A :=
  if (x <? uint256_max)%N then k (x + 1)%N else Revert (Panic 17).

(** Big-endian value of a byte string. *)
Definition be_value (bs : list byte) : N :=
  fold_left (fun acc b => (acc * 256 + Byte.to_N b)%N) bs 0%N.

(** [abi.decode(data, (uint32))]: needs a full 32-byte word, whose value
    must fit the type; bytes after the first word are ignored. *)
Definition abi_decode_uint32 (data : list byte) : option N :=
  if (length data <? 32)%nat then None
  else let w := be_value (take 32 data) in
       if (w <? uint32_bound)%N then Some w else None.

(** [abi.encodePacked(v)] for a [uint32]: its four bytes, big-endian. *)
Definition encodePacked_uint32 (v : N) : list N :=
  [ (v / 2 ^ 24) mod 256; (v / 2 ^ 16) mod 256; (v / 2 ^ 8) mod 256; v mod 256 ]%N.

End Sol.

Export Sol.

Notation "'require' c 'or' msg ; k" :=
  (if c then k else Revert (Require msg))
  (at level 10, c at level 9, msg at level 9, k at level 200,
   format "'[v' 'require'  c  'or'  msg ; '/' k ']'").

(** ** The FHE library, as the contracts use it

    Ciphertext handles ([euint32], [externalEuint32]) and [bytes32] values
    are 256-bit words; the uninitialised handle is 0. [fromExternal] checks
    the input proof and reverts ([None]) when it does not verify;
    [checkSignatures] reverts ([false]) when the decryption proof does not
    certify the handles and the cleartexts. *)

Module FHE.

Class Oracle := {
  fromExternal : N -> list byte -> option N;
  add : N -> N -> N;
  makePubliclyDecryptable : N -> N;
  toBytes32 : N -> N;
  checkSignatures : list N -> list byte -> list byte -> bool;
}.

End FHE.

(** ** VaultVoteEnhanced *)

Module Enhanced.

Inductive ElectionState := Created | Open | Closed | Revealed.

#[global] Instance ElectionState_eq_dec : EqDecision ElectionState.
Proof. solve_decision. Defined.

Definition state_eqb (a b : ElectionState) : bool := bool_decide (a = b).

Record Election := mkElection {
  title : string;
  choiceLabels : list string;
  choiceCount : N;
  state : ElectionState;
  encryptedVotesPerChoice : N -> N;
  revealedVotesPerChoice : N -> N;
  choiceRevealed : N -> bool;
  userVotes : N -> N;
  hasVoted : N -> bool;
  fullyRevealed : bool;
  revealedChoiceCount : N;
  expectedHandles : N -> N;
}.

(** A storage slot never written: every field is zero. *)
Definition emptyElection : Election :=
  mkElection EmptyString [] 0 Created (fun _ => 0%N) (fun _ => 0%N) (fun _ => false)
             (fun _ => 0%N) (fun _ => false) false 0 (fun _ => 0%N).

Record Contract := mkContract {
  owner : N;
  elections : N -> Election;
  electionCount : N;
}.

Inductive Event :=
| ElectionCreated (id : N) (title : string) (choices : list string)
| ElectionOpened (id : N)
| ElectionClosed (id : N)
| VoteCast (id : N) (voter : N) (choiceIndex : N)
| ChoiceRevealRequested (id : N) (choiceIndex : N) (handle : N)
| ChoiceRevealed (id : N) (choiceIndex : N) (voteCount : N)
| ElectionFullyRevealed (id : N).

(** What a transaction leaves outside the contract's storage: the events
    it emits and the access grants it records in the FHE access list. *)
Inductive Effect :=
| Emit (e : Event)
| AllowThis (handle : N)
| Allow (handle : N) (account : N).

(** Field updates of an [Election storage] reference. *)
Definition set_state (v : ElectionState) (e : Election) : Election :=
  mkElection (title e) (choiceLabels e) (choiceCount e) v
    (encryptedVotesPerChoice e) (revealedVotesPerChoice e) (choiceRevealed e)
    (userVotes e) (hasVoted e) (fullyRevealed e) (revealedChoiceCount e)
    (expectedHandles e).
Definition set_encryptedVotes (i v : N) (e : Election) : Election :=
  mkElection (title e) (choiceLabels e) (choiceCount e) (state e)
    (<[i := v]> (encryptedVotesPerChoice e)) (revealedVotesPerChoice e)
    (choiceRevealed e) (userVotes e) (hasVoted e) (fullyRevealed e)
    (revealedChoiceCount e) (expectedHandles e).
Definition set_revealedVotes (i v : N) (e : Election) : Election :=
  mkElection (title e) (choiceLabels e) (choiceCount e) (state e)
    (encryptedVotesPerChoice e) (<[i := v]> (revealedVotesPerChoice e))
    (choiceRevealed e) (userVotes e) (hasVoted e) (fullyRevealed e)
    (revealedChoiceCount e) (expectedHandles e).
Definition set_choiceRevealed (i : N) (v : bool) (e : Election) : Election :=
  mkElection (title e) (choiceLabels e) (choiceCount e) (state e)
    (encryptedVotesPerChoice e) (revealedVotesPerChoice e)
    (<[i := v]> (choiceRevealed e)) (userVotes e) (hasVoted e)
    (fullyRevealed e) (revealedChoiceCount e) (expectedHandles e).
Definition set_userVotes (a v : N) (e : Election) : Election :=
  mkElection (title e) (choiceLabels e) (choiceCount e) (state e)
    (encryptedVotesPerChoice e) (revealedVotesPerChoice e) (choiceRevealed e)
    (<[a := v]> (userVotes e)) (hasVoted e) (fullyRevealed e)
    (revealedChoiceCount e) (expectedHandles e).
Definition set_hasVoted (a : N) (v : bool) (e : Election) : Election :=
  mkElection (title e) (choiceLabels e) (choiceCount e) (state e)
    (encryptedVotesPerChoice e) (revealedVotesPerChoice e) (choiceRevealed e)
    (userVotes e) (<[a := v]> (hasVoted e)) (fullyRevealed e)
    (revealedChoiceCount e) (expectedHandles e).
Definition set_fullyRevealed (v : bool) (e : Election) : Election :=
  mkElection (title e) (choiceLabels e) (choiceCount e) (state e)
    (encryptedVotesPerChoice e) (revealedVotesPerChoice e) (choiceRevealed e)
    (userVotes e) (hasVoted e) v (revealedChoiceCount e) (expectedHandles e).
Definition set_revealedChoiceCount (v : N) (e : Election) : Election :=
  mkElection (title e) (choiceLabels e) (choiceCount e) (state e)
    (encryptedVotesPerChoice e) (revealedVotesPerChoice e) (choiceRevealed e)
    (userVotes e) (hasVoted e) (fullyRevealed e) v (expectedHandles e).
Definition set_expectedHandles (i v : N) (e : Election) : Election :=
  mkElection (title e) (choiceLabels e) (choiceCount e) (state e)
    (encryptedVotesPerChoice e) (revealedVotesPerChoice e) (choiceRevealed e)
    (userVotes e) (hasVoted e) (fullyRevealed e) (revealedChoiceCount e)
    (<[i := v]> (expectedHandles e)).
(** [e.title = ..; e.choiceLabels = ..; e.choiceCount = ..] *)
Definition set_header (t : string) (ls : list string) (n : N) (e : Election)
  : Election :=
  mkElection t ls n (state e)
    (encryptedVotesPerChoice e) (revealedVotesPerChoice e) (choiceRevealed e)
    (userVotes e) (hasVoted e) (fullyRevealed e) (revealedChoiceCount e)
    (expectedHandles e).

Definition store (id : N) (e : Election) (c : Contract) : Contract :=
  mkContract (owner c) (<[id := e]> (elections c)) (electionCount c).

(** A successful transaction: the return value, the storage after it and
    the effects, in program order. *)
Definition Tx (A : Type) : Type := Result (A * Contract * list Effect).

(** [constructor()] *)
Definition constructor (sender : N) : Contract :=
  mkContract sender (fun _ => emptyElection) 0.

Section WithOracle.
Context `{fhe : FHE.Oracle}.

(** The initialisation loop of [createElection]; [n] iterations remain,
    [i] is the loop counter. *)
Fixpoint createElection_loop (n : nat) (i : N) (zeroInputs : list N)
    (zeroProofs : list (list byte)) (e : Election) (log : list Effect)
  : Result (Election * list Effect) :=
  match n with
  | O => Ok (e, log)
  | S n' =>
      match zeroInputs !! N.to_nat i, zeroProofs !! N.to_nat i with
      | Some zi, Some zp =>
          match FHE.fromExternal zi zp with
          | Some h =>
              let e1 := set_encryptedVotes i h e in
              let e2 := set_choiceRevealed i false e1 in
              createElection_loop n' (i + 1) zeroInputs zeroProofs e2
                (log ++ [AllowThis h])
          | None => Revert External
          end
      | _, _ => Revert (Panic 50)
      end
  end.

Definition createElection (sender : N) (title : string)
    (choiceLabels : list string) (zeroInputs : list N)
    (zeroProofs : list (list byte)) (c : Contract) : Tx N :=
  require (bool_decide (sender = owner c)) or "only owner";
  require (1 <? length choiceLabels)%nat or "need at least 2 choices";
  require (length zeroInputs =? length choiceLabels)%nat or "mismatch inputs";
  require (length zeroProofs =? length choiceLabels)%nat or "mismatch proofs";
  let id := electionCount c in
  incr id (fun count' =>
    let e := elections c id in
    let e := set_header title choiceLabels (N.of_nat (length choiceLabels)) e in
    let e := set_state Created e in
    let e := set_fullyRevealed false e in
    let e := set_revealedChoiceCount 0 e in
    match createElection_loop (length choiceLabels) 0 zeroInputs zeroProofs e [] with
    | Ok (e', log) =>
        Ok (id,
            mkContract (owner c) (<[id := e']> (elections c)) count',
            log ++ [Emit (ElectionCreated id title choiceLabels)])
    | Revert r => Revert r
    end).

Definition openElection (sender : N) (id : N) (c : Contract) : Tx unit :=
  require (bool_decide (sender = owner c)) or "only owner";
  let e := elections c id in
  require (state_eqb (state e) Created) or "invalid state";
  Ok (tt, store id (set_state Open e) c, [Emit (ElectionOpened id)]).

Definition closeElection (sender : N) (id : N) (c : Contract) : Tx unit :=
  require (bool_decide (sender = owner c)) or "only owner";
  let e := elections c id in
  require (state_eqb (state e) Open) or "not open";
  Ok (tt, store id (set_state Closed e) c, [Emit (ElectionClosed id)]).

Definition castVote (sender : N) (id choiceIndex : N) (voteInput : N)
    (voteProof : list byte) (c : Contract) : Tx unit :=
  let e := elections c id in
  require (state_eqb (state e) Open) or "election not open";
  require (negb (hasVoted e sender)) or "already voted";
  require (choiceIndex <? choiceCount e)%N or "invalid choice";
  match FHE.fromExternal voteInput voteProof with
  | None => Revert External
  | Some vote =>
      let e := set_userVotes sender vote e in
      let sum := FHE.add (encryptedVotesPerChoice e choiceIndex) vote in
      let e := set_encryptedVotes choiceIndex sum e in
      let e := set_hasVoted sender true e in
      Ok (tt, store id e c,
          [Allow vote sender; AllowThis sum; Allow sum (owner c);
           Emit (VoteCast id sender choiceIndex)])
  end.

Definition getEncryptedVotesForChoice (id choiceIndex : N) (c : Contract)
  : Result N :=
  require (choiceIndex <? choiceCount (elections c id))%N or "invalid choice";
  Ok (encryptedVotesPerChoice (elections c id) choiceIndex).

Definition getMyEncryptedVote (sender : N) (id : N) (c : Contract)
  : Result N :=
  require (hasVoted (elections c id) sender) or "you haven't voted";
  Ok (userVotes (elections c id) sender).

Definition requestChoiceReveal (sender : N) (id choiceIndex : N)
    (c : Contract) : Tx unit :=
  require (bool_decide (sender = owner c)) or "only owner";
  let e := elections c id in
  require (state_eqb (state e) Closed) or "must be closed";
  require (choiceIndex <? choiceCount e)%N or "invalid choice";
  require (negb (choiceRevealed e choiceIndex)) or "already revealed";
  let pub := FHE.makePubliclyDecryptable (encryptedVotesPerChoice e choiceIndex) in
  let e := set_encryptedVotes choiceIndex pub e in
  let handle := FHE.toBytes32 (encryptedVotesPerChoice e choiceIndex) in
  let e := set_expectedHandles choiceIndex handle e in
  Ok (tt, store id e c, [Emit (ChoiceRevealRequested id choiceIndex handle)]).

Definition resolveChoiceCallback (id choiceIndex : N)
    (cleartexts decryptionProof : list byte) (c : Contract) : Tx unit :=
  require (id <? electionCount c)%N or "invalid election";
  let e := elections c id in
  require (state_eqb (state e) Closed) or "must be closed";
  require (choiceIndex <? choiceCount e)%N or "invalid choice";
  require (negb (choiceRevealed e choiceIndex)) or "already revealed";
  let handlesList := [expectedHandles e choiceIndex] in
  if negb (FHE.checkSignatures handlesList cleartexts decryptionProof)
  then Revert External
  else
    match abi_decode_uint32 cleartexts with
    | None => Revert AbiDecode
    | Some voteCount =>
        let e := set_revealedVotes choiceIndex voteCount e in
        let e := set_choiceRevealed choiceIndex true e in
        incr (revealedChoiceCount e) (fun n =>
          let e := set_revealedChoiceCount n e in
          if (revealedChoiceCount e =? choiceCount e)%N
          then
            let e := set_state Revealed e in
            let e := set_fullyRevealed true e in
            Ok (tt, store id e c,
                [Emit (ElectionFullyRevealed id);
                 Emit (ChoiceRevealed id choiceIndex voteCount)])
          else
            Ok (tt, store id e c,
                [Emit (ChoiceRevealed id choiceIndex voteCount)]))
    end.

End WithOracle.

(** *** Views *)

Definition getElection (id : N) (c : Contract)
  : string * list string * ElectionState * bool :=
  let e := elections c id in
  (title e, choiceLabels e, state e, fullyRevealed e).

Definition getRevealedResults (id : N) (c : Contract) : list N :=
  let e := elections c id in
  map (fun i => revealedVotesPerChoice e (N.of_nat i))
      (seq 0 (N.to_nat (choiceCount e))).

(** The scan of [getWinner]: [n] iterations remain, [i] is the loop
    counter, the pair is [(winningIndex, winningVotes)]. *)
Fixpoint getWinner_loop (e : Election) (n : nat) (i : N) (w : N * N) : N * N :=
  match n with
  | O => w
  | S n' =>
      let w' := if (w.2 <? revealedVotesPerChoice e i)%N
                then (i, revealedVotesPerChoice e i) else w in
      getWinner_loop e n' (i + 1) w'
  end.

Definition getWinner (id : N) (c : Contract) : Result (N * N) :=
  let e := elections c id in
  require (fullyRevealed e) or "not fully revealed";
  Ok (getWinner_loop e (N.to_nat (choiceCount e) - 1) 1
        (0%N, revealedVotesPerChoice e 0)).

Definition hasVoted_view (id voter : N) (c : Contract) : bool :=
  hasVoted (elections c id) voter.

Definition isChoiceRevealed (id choiceIndex : N) (c : Contract) : bool :=
  choiceRevealed (elections c id) choiceIndex.

(** The fields that the initialisation loop of [createElection] does not
    write. *)
Definition loop_frame (e e' : Election) : Prop :=
  title e' = title e ∧ choiceLabels e' = choiceLabels e
  ∧ choiceCount e' = choiceCount e ∧ state e' = state e
  ∧ revealedVotesPerChoice e' = revealedVotesPerChoice e
  ∧ userVotes e' = userVotes e ∧ hasVoted e' = hasVoted e
  ∧ fullyRevealed e' = fullyRevealed e
  ∧ revealedChoiceCount e' = revealedChoiceCount e
  ∧ expectedHandles e' = expectedHandles e.

End Enhanced.

(** ** VaultVote (single encrypted tally) *)

Module Basic.

Import Enhanced (ElectionState, Created, Open, Closed, Revealed, state_eqb).

Record Election := mkElection {
  title : string;
  choices : N;
  state : ElectionState;
  encryptedTally : N;
  revealedResult : list N;
  revealRequested : bool;
  expectedTallyHandle : N;
  hasVoted : N -> bool;
}.

Definition emptyElection : Election :=
  mkElection EmptyString 0 Created 0 [] false 0 (fun _ => false).

Record Contract := mkContract {
  owner : N;
  elections : N -> Election;
  electionCount : N;
}.

Inductive Event :=
| ElectionCreated (id : N) (title : string) (choices : N)
| ElectionOpened (id : N)
| ElectionClosed (id : N)
| VoteCast (id : N) (voter : N)
| TallyUpdated (id : N)
| TallyRevealRequested (id : N) (tallyHandle : N)
| TallyRevealed (id : N) (plaintextResult : list N).

Inductive Effect :=
| Emit (e : Event)
| AllowThis (handle : N)
| Allow (handle : N) (account : N).

Definition store (id : N) (e : Election) (c : Contract) : Contract :=
  mkContract (owner c) (<[id := e]> (elections c)) (electionCount c).

Definition Tx (A : Type) : Type := Result (A * Contract * list Effect).

Definition constructor (sender : N) : Contract :=
  mkContract sender (fun _ => emptyElection) 0.

Section WithOracle.
Context `{fhe : FHE.Oracle}.

Definition createElection (sender : N) (title : string) (choices : N)
    (zeroInput : N) (zeroProof : list byte) (c : Contract) : Tx N :=
  require (bool_decide (sender = owner c)) or "only owner";
  require (0 <? choices)%N or "choices>0";
  let id := electionCount c in
  incr id (fun count' =>
    let e := elections c id in
    match FHE.fromExternal zeroInput zeroProof with
    | None => Revert External
    | Some tally =>
        let e' := mkElection title choices Created tally (revealedResult e)
                    false (expectedTallyHandle e) (hasVoted e) in
        Ok (id,
            mkContract (owner c) (<[id := e']> (elections c)) count',
            [AllowThis tally; Emit (ElectionCreated id title choices)])
    end).

Definition openElection (sender : N) (id : N) (c : Contract) : Tx unit :=
  require (bool_decide (sender = owner c)) or "only owner";
  let e := elections c id in
  require (state_eqb (state e) Created) or "invalid state";
  let e' := mkElection (title e) (choices e) Open (encryptedTally e)
              (revealedResult e) (revealRequested e) (expectedTallyHandle e)
              (hasVoted e) in
  Ok (tt, store id e' c, [Emit (ElectionOpened id)]).

Definition closeElection (sender : N) (id : N) (c : Contract) : Tx unit :=
  require (bool_decide (sender = owner c)) or "only owner";
  let e := elections c id in
  require (state_eqb (state e) Open) or "not open";
  let e' := mkElection (title e) (choices e) Closed (encryptedTally e)
              (revealedResult e) (revealRequested e) (expectedTallyHandle e)
              (hasVoted e) in
  Ok (tt, store id e' c, [Emit (ElectionClosed id)]).

Definition castVote (sender : N) (id : N) (voteInput : N)
    (voteProof : list byte) (c : Contract) : Tx unit :=
  let e := elections c id in
  require (state_eqb (state e) Open) or "election not open";
  require (negb (hasVoted e sender)) or "already voted";
  match FHE.fromExternal voteInput voteProof with
  | None => Revert External
  | Some vote =>
      let sum := FHE.add (encryptedTally e) vote in
      let e' := mkElection (title e) (choices e) (state e) sum
                  (revealedResult e) (revealRequested e)
                  (expectedTallyHandle e) (<[sender := true]> (hasVoted e)) in
      Ok (tt, store id e' c,
          [AllowThis sum; Allow sum (owner c);
           Emit (VoteCast id sender); Emit (TallyUpdated id)])
  end.

Definition getEncryptedTally (id : N) (c : Contract) : N :=
  encryptedTally (elections c id).

Definition requestTallyReveal (sender : N) (id : N) (c : Contract)
  : Tx unit :=
  require (bool_decide (sender = owner c)) or "only owner";
  let e := elections c id in
  require (state_eqb (state e) Closed) or "must be closed";
  require (negb (revealRequested e)) or "reveal already requested";
  let pub := FHE.makePubliclyDecryptable (encryptedTally e) in
  let tallyHandle := FHE.toBytes32 pub in
  let e' := mkElection (title e) (choices e) (state e) pub
              (revealedResult e) true tallyHandle (hasVoted e) in
  Ok (tt, store id e' c, [Emit (TallyRevealRequested id tallyHandle)]).

Definition resolveTallyCallback (id : N)
    (cleartexts decryptionProof : list byte) (c : Contract) : Tx unit :=
  require (id <? electionCount c)%N or "invalid election";
  let e := elections c id in
  require (revealRequested e) or "reveal not requested";
  require (state_eqb (state e) Closed) or "must be closed";
  require (negb (state_eqb (state e) Revealed)) or "already revealed";
  let handlesList := [expectedTallyHandle e] in
  if negb (FHE.checkSignatures handlesList cleartexts decryptionProof)
  then Revert External
  else
    match abi_decode_uint32 cleartexts with
    | None => Revert AbiDecode
    | Some revealedTally =>
        let result := encodePacked_uint32 revealedTally in
        let e' := mkElection (title e) (choices e) Revealed
                    (encryptedTally e) result (revealRequested e)
                    (expectedTallyHandle e) (hasVoted e) in
        Ok (tt, store id e' c, [Emit (TallyRevealed id result)])
    end.

End WithOracle.

Definition getElection (id : N) (c : Contract)
  : string * N * ElectionState * list N :=
  let e := elections c id in
  (title e, choices e, state e, revealedResult e).

Definition hasVoted_view (id voter : N) (c : Contract) : bool :=
  hasVoted (elections c id) voter.

End Basic.

(** ** JavaScript values used by the server

    Strings are sequences of code units below 256 (the strings in play are
    hexadecimal nonces, decimal ids and a fixed English template). A number
    produced by [parseInt] is an integer-valued double or an infinity; [NaN]
    is the [None] of an [option]. *)

Module JS.

Inductive num := Fin (z : Z) | PInf | NInf.

#[global] Instance num_eq_dec : EqDecision num.
Proof. solve_decision. Defined.

Definition num_to_sum (n : num) : Z + bool :=
  match n with Fin z => inl z | PInf => inr true | NInf => inr false end.
Definition num_of_sum (s : Z + bool) : num :=
  match s with inl z => Fin z | inr true => PInf | inr false => NInf end.

#[global] Instance num_countable : Countable num :=
  inj_countable' num_to_sum num_of_sum
    (λ n, match n with Fin _ => eq_refl | PInf => eq_refl | NInf => eq_refl end).

(** The double nearest to a non-negative integer (ties to even), or
    [PInf] when it overflows. *)
Definition to_double (n : Z) : num :=
  if (n <? 2 ^ 53)%Z then Fin n
  else
    let k := (Z.log2 n - 52)%Z in
    let q := (n / 2 ^ k)%Z in
    let r := (n mod 2 ^ k)%Z in
    let half := (2 ^ (k - 1))%Z in
    let q' := if (half <? r)%Z || ((r =? half)%Z && Z.odd q)
              then (q + 1)%Z else q in
    let v := (q' * 2 ^ k)%Z in
    if (v <? 2 ^ 1024)%Z then Fin v else PInf.

Definition negate (n : num) : num :=
  match n with Fin z => Fin (- z) | PInf => NInf | NInf => PInf end.

Definition is_digit (c : ascii) : bool :=
  let n := nat_of_ascii c in (48 <=? n)%nat && (n <=? 57)%nat.

(** [[a-f0-9]] *)
Definition is_hex (c : ascii) : bool :=
  let n := nat_of_ascii c in
  is_digit c || ((97 <=? n)%nat && (n <=? 102)%nat).

(** White space skipped by [parseInt] and removed by [trim]: TAB, LF, VT,
    FF, CR, SP and NBSP. *)
Definition is_space (c : ascii) : bool :=
  let n := nat_of_ascii c in
  ((9 <=? n)%nat && (n <=? 13)%nat) || (n =? 32)%nat || (n =? 160)%nat.

Definition digit_value (c : ascii) : Z := Z.of_nat (nat_of_ascii c) - 48.

(** The longest prefix whose characters satisfy [f], and the rest. *)
Fixpoint span (f : ascii -> bool) (s : string) : string * string :=
  match s with
  | EmptyString => (EmptyString, EmptyString)
  | String c s' =>
      if f c then let '(a, b) := span f s' in (String c a, b)
      else (EmptyString, s)
  end.

Fixpoint all_chars (f : ascii -> bool) (s : string) : bool :=
  match s with
  | EmptyString => true
  | String c s' => f c && all_chars f s'
  end.

(** The value of a string of decimal digits, most significant first. *)
Fixpoint digits_value (acc : Z) (s : string) : Z :=
  match s with
  | EmptyString => acc
  | String c s' => digits_value (acc * 10 + digit_value c)%Z s'
  end.

(** [parseInt(s, 10)]; [None] is [NaN]. *)
Definition parseInt10 (s : string) : option num :=
  let s1 := (span is_space s).2 in
  let '(neg, s2) :=
    match s1 with
    | String "-" r => (true, r)
    | String "+" r => (false, r)
    | _ => (false, s1)
    end in
  let ds := (span is_digit s2).1 in
  match ds with
  | EmptyString => None
  | _ => let v := to_double (digits_value 0 ds) in
         Some (if neg then negate v else v)
  end.

(** [s.trim()] *)
Fixpoint trim_end (s : string) : string :=
  match s with
  | EmptyString => EmptyString
  | String c s' =>
      match trim_end s' with
      | EmptyString => if is_space c then EmptyString else String c EmptyString
      | t => String c t
      end
  end.
Definition trim (s : string) : string := trim_end (span is_space s).2.

(** The rest of [s] after the literal [p], when [s] starts with it. *)
Fixpoint strip_prefix (p s : string) : option string :=
  match p, s with
  | EmptyString, _ => Some s
  | String a p', String b s' =>
      if Ascii.eqb a b then strip_prefix p' s' else None
  | String _ _, EmptyString => None
  end.

(** Falsy values of an optional string: [undefined] and the empty
    string. *)
Definition truthy (o : option string) : option string :=
  match o with
  | Some EmptyString => None
  | _ => o
  end.

Definition hex_digit (n : N) : ascii :=
  ascii_of_N (if (n <? 10)%N then 48 + n else 87 + n).

(** [Buffer.toString('hex')] *)
Fixpoint to_hex (bs : list byte) : string :=
  match bs with
  | [] => EmptyString
  | b :: bs' =>
      let n := Byte.to_N b in
      String (hex_digit (n / 16)) (String (hex_digit (n mod 16)) (to_hex bs'))
  end.

End JS.

(** ** File storage of the election metadata (the in-memory map of
    [FileStorage]; the debounced write to disk is outside the model) *)

Module Storage.

Record ElectionMetadata := mkMetadata {
  electionId : JS.num;
  description : option string;
  votingStartTime : option string;
  votingEndTime : option string;
  resultRevealTime : option string;
  imageUrl : option string;
  hidden : option bool;
}.

(** The [Map<number, ElectionMetadata>] held by [FileStorage]: its entries
    in the order in which their keys were first set, as a JavaScript [Map]
    keeps them. *)
Record FileStorage := mkStorage {
  electionMetadata : list (JS.num * ElectionMetadata);
}.

(** [Map.prototype.get]. *)
Fixpoint entries_get (k : JS.num) (es : list (JS.num * ElectionMetadata))
  : option ElectionMetadata :=
  match es with
  | [] => None
  | (k', m) :: es' => if decide (k' = k) then Some m else entries_get k es'
  end.

(** [Map.prototype.set]: the value of a key that is present is replaced
    where the key stands; a new key goes to the end. *)
Fixpoint entries_set (k : JS.num) (v : ElectionMetadata)
    (es : list (JS.num * ElectionMetadata)) : list (JS.num * ElectionMetadata) :=
  match es with
  | [] => [(k, v)]
  | (k', m) :: es' =>
      if decide (k' = k) then (k', v) :: es' else (k', m) :: entries_set k v es'
  end.

#[global] Instance FileStorage_empty : Empty FileStorage := mkStorage [].
#[global] Instance FileStorage_lookup : Lookup JS.num ElectionMetadata FileStorage :=
  λ k s, entries_get k (electionMetadata s).
#[global] Instance FileStorage_insert : Insert JS.num ElectionMetadata FileStorage :=
  λ k v s, mkStorage (entries_set k v (electionMetadata s)).

Definition saveElectionMetadata (metadata : ElectionMetadata)
    (s : FileStorage) : FileStorage :=
  <[electionId metadata := metadata]> s.

Definition getElectionMetadata (id : JS.num) (s : FileStorage)
  : option ElectionMetadata :=
  s !! id.

(** [Array.from(this.electionMetadata.values())]: the records in the
    order of the map. *)
Definition getAllElectionMetadata (s : FileStorage) : list ElectionMetadata :=
  (electionMetadata s).*2.

End Storage.

(** ** The routes of the metadata gateway: nonce issuance and toggle-hidden *)

Module Routes.

Import Storage.

Record NonceData := mkNonceData {
  nonce : string;
  electionId : JS.num;
  expiresAt : Z;
}.

(** The server's mutable state: the module-level [nonceStore] and the
    [storage] singleton. *)
Record Server := mkServer {
  nonceStore : gmap string NonceData;
  storage : FileStorage;
}.

Inductive Body :=
| ErrorBody (error : string)
| NonceBody (nonce : string) (expiresAt : Z)
| ToggleBody (success : bool) (hidden : bool).

Record Response := mkResponse {
  status : N;
  body : Body;
}.

(** Console output, one entry per [console.log] / [console.error]. *)
Inductive Log :=
| LogNonceGenerated (electionId : JS.num) (noncePrefix : string)
| LogVerifyFailed
| LogVerified (electionId : JS.num) (signerAddress : string)
| LogHiddenChanged (electionId : JS.num) (newHiddenState : bool).

(** The periodic clean-up of expired nonces. *)
Definition sweep (now : Z) (st : Server) : Server :=
  mkServer (filter (fun kv => ¬ (expiresAt kv.2 < now)%Z) (nonceStore st))
           (storage st).

(** GET /api/election-metadata/:id/toggle-hidden/nonce; [random] is the
    output of [randomBytes(32)]. *)
Definition getNonce (now : Z) (random : list byte) (id : string)
    (st : Server) : Server * Response * list Log :=
  match JS.parseInt10 id with
  | None => (st, mkResponse 400 (ErrorBody "Invalid election ID"), [])
  | Some electionId =>
      let nonce := JS.to_hex random in
      let expiresAt := (now + 5 * 60 * 1000)%Z in
      (mkServer (<[nonce := mkNonceData nonce electionId expiresAt]> (nonceStore st))
                (storage st),
       mkResponse 200 (NonceBody nonce expiresAt),
       [LogNonceGenerated electionId (String.substring 0 8 nonce)])
  end.

(** [/^Toggle hidden for election (\d+) with nonce ([a-f0-9]+)$/]: the two
    captured groups when the whole message matches. *)
Definition messagePattern (message : string) : option (string * string) :=
  match JS.strip_prefix "Toggle hidden for election " message with
  | None => None
  | Some r1 =>
      let '(digits, r2) := JS.span JS.is_digit r1 in
      match digits with
      | EmptyString => None
      | _ =>
          match JS.strip_prefix " with nonce " r2 with
          | None => None
          | Some EmptyString => None
          | Some r3 => if JS.all_chars JS.is_hex r3 then Some (digits, r3) else None
          end
      end
  end.

Record ToggleRequest := mkToggleRequest {
  params_id : string;
  message : option string;
  signature : option string;
  req_nonce : option string;
}.

Section WithVerifier.
(** [ethers.verifyMessage(message, signature)]: the recovered signer
    address, or [None] when it throws. *)
Variable verifyMessage : string -> string -> option string.

(** POST /api/election-metadata/:id/toggle-hidden, at time [now]. *)
Definition toggleHidden (now : Z) (req : ToggleRequest) (st : Server)
  : Server * Response * list Log :=
  match JS.parseInt10 (params_id req) with
  | None => (st, mkResponse 400 (ErrorBody "Invalid election ID"), [])
  | Some electionId =>
  match JS.truthy (message req), JS.truthy (signature req),
        JS.truthy (req_nonce req) with
  | Some message, Some signature, Some nonce =>
    match nonceStore st !! nonce with
    | None => (st, mkResponse 401 (ErrorBody "Invalid or expired nonce"), [])
    | Some nonceData =>
      if negb (bool_decide (Routes.electionId nonceData = electionId))
      then (st, mkResponse 400 (ErrorBody "Nonce does not match election ID"), [])
      else if (expiresAt nonceData <? now)%Z
      then (mkServer (delete nonce (nonceStore st)) (storage st),
            mkResponse 401 (ErrorBody "Nonce expired"), [])
      else
        let st := mkServer (delete nonce (nonceStore st)) (storage st) in
        match verifyMessage message signature with
        | None => (st, mkResponse 401 (ErrorBody "Invalid signature"),
                   [LogVerifyFailed])
        | Some signerAddress =>
          match messagePattern message with
          | None => (st, mkResponse 400 (ErrorBody "Invalid message format"), [])
          | Some (m1, messageNonce) =>
            let messageElectionId := JS.parseInt10 m1 in
            if negb (bool_decide (messageElectionId = Some electionId))
               || negb (bool_decide (messageNonce = nonce))
            then (st, mkResponse 400 (ErrorBody "Message data mismatch"), [])
            else
              let existingMetadata := getElectionMetadata electionId (storage st) in
              let newHiddenState :=
                negb (default false (existingMetadata ≫= hidden)) in
              let updatedMetadata :=
                mkMetadata electionId None None None None None
                           (Some newHiddenState) in
              (mkServer (nonceStore st)
                        (saveElectionMetadata updatedMetadata (storage st)),
               mkResponse 200 (ToggleBody true newHiddenState),
               [LogVerified electionId signerAddress;
                LogHiddenChanged electionId newHiddenState])
          end
        end
    end
  | _, _, _ =>
    (st, mkResponse 401
           (ErrorBody "Message, signature, and nonce required for authentication"),
     [])
  end
  end.

End WithVerifier.

End Routes.

(** ** The client-side form schema [createElectionSchema] *)

Module Schema.

Record CreateElectionInput := mkInput {
  title : string;
  description : option string;
  choiceLabels : list string;
  votingStartTime : option string;
  votingEndTime : option string;
  resultRevealTime : option string;
  imageUrl : option string;
}.

(** The issues zod reports for one choice label: the length check runs on
    the string as entered, before [trim]. *)
Definition label_issues (l : string) : list string :=
  if (String.length l <? 1)%nat then ["Choice label cannot be empty"] else [].

Definition createElectionSchema_issues (i : CreateElectionInput) : list string :=
  (if (String.length (title i) <? 3)%nat
   then ["Title must be at least 3 characters"] else [])
  ++ (if (length (choiceLabels i) <? 2)%nat
      then ["Must have at least 2 choices"] else [])
  ++ (if (10 <? length (choiceLabels i))%nat
      then ["Maximum 10 choices allowed"] else [])
  ++ concat (map label_issues (choiceLabels i)).

(** [createElectionSchema.safeParse]: the parsed value (labels trimmed)
    when there is no issue. *)
Definition createElectionSchema (i : CreateElectionInput)
  : option CreateElectionInput :=
  match createElectionSchema_issues i with
  | [] => Some (mkInput (title i) (description i)
                        (map JS.trim (choiceLabels i))
                        (votingStartTime i) (votingEndTime i)
                        (resultRevealTime i) (imageUrl i))
  | _ => None
  end.

End Schema.

(** ** Sequences of transactions against VaultVoteEnhanced *)

Module Ledger.

Import Enhanced.

Inductive Call :=
| CreateElection (title : string) (choiceLabels : list string)
    (zeroInputs : list N) (zeroProofs : list (list byte))
| OpenElection (id : N)
| CloseElection (id : N)
| CastVote (id choiceIndex : N) (voteInput : N) (voteProof : list byte)
| RequestChoiceReveal (id choiceIndex : N)
| ResolveChoiceCallback (id choiceIndex : N)
    (cleartexts decryptionProof : list byte).

(** The order of election states. *)
Definition rank (s : ElectionState) : nat :=
  match s with Created => 0 | Open => 1 | Closed => 2 | Revealed => 3 end.

Definition successor (s : ElectionState) : option ElectionState :=
  match s with
  | Created => Some Open
  | Open => Some Closed
  | Closed => Some Revealed
  | Revealed => None
  end.

(** One transaction leaves the state where it is or moves it to the next
    one. *)
Definition moves_forward (a b : ElectionState) : Prop :=
  b = a ∨ successor a = Some b.

Section WithOracle.
Context `{fhe : FHE.Oracle}.

(** A transaction sent by [sender]: the storage and the effects when it
    succeeds. *)
Definition exec (sender : N) (call : Call) (c : Contract)
  : Result (Contract * list Effect) :=
  match call with
  | CreateElection t ls zi zp =>
      match createElection sender t ls zi zp c with
      | Ok (_, c', log) => Ok (c', log)
      | Revert r => Revert r
      end
  | OpenElection id =>
      match openElection sender id c with
      | Ok (_, c', log) => Ok (c', log)
      | Revert r => Revert r
      end
  | CloseElection id =>
      match closeElection sender id c with
      | Ok (_, c', log) => Ok (c', log)
      | Revert r => Revert r
      end
  | CastVote id ch vi vp =>
      match castVote sender id ch vi vp c with
      | Ok (_, c', log) => Ok (c', log)
      | Revert r => Revert r
      end
  | RequestChoiceReveal id ch =>
      match requestChoiceReveal sender id ch c with
      | Ok (_, c', log) => Ok (c', log)
      | Revert r => Revert r
      end
  | ResolveChoiceCallback id ch ct pf =>
      match resolveChoiceCallback id ch ct pf c with
      | Ok (_, c', log) => Ok (c', log)
      | Revert r => Revert r
      end
  end.

(** A reverted transaction leaves the storage as it was. *)
Definition step (c : Contract) (tx : N * Call) : Contract :=
  match exec tx.1 tx.2 c with
  | Ok (c', _) => c'
  | Revert _ => c
  end.

Definition run (txs : list (N * Call)) (c : Contract) : Contract :=
  fold_left step txs c.

(** The storage before the first transaction and after each one. *)
Fixpoint history (txs : list (N * Call)) (c : Contract) : list Contract :=
  c :: match txs with
       | [] => []
       | tx :: txs' => history txs' (step c tx)
       end.

Definition reachable (c : Contract) : Prop :=
  ∃ deployer txs, c = run txs (constructor deployer).

End WithOracle.

End Ledger.

(** ** A transparent oracle and concrete inputs, to run the contracts

    Handles are the plaintexts themselves: an input with a non-empty proof is
    ingested as it is, addition is addition modulo 2^32, and a decryption is
    certified when the cleartext word equals the single handle and the proof
    is not empty. *)

Module Fixture.

Definition plain_check (handles : list N) (cleartexts proof : list byte) : bool :=
  match handles, proof with
  | [h], _ :: _ => bool_decide (abi_decode_uint32 cleartexts = Some h)
  | _, _ => false
  end.

Definition plainOracle : FHE.Oracle :=
  {| FHE.fromExternal x p := match p with [] => None | _ => Some x end;
     FHE.add a b := ((a + b) mod 2 ^ 32)%N;
     FHE.makePubliclyDecryptable h := h;
     FHE.toBytes32 h := h;
     FHE.checkSignatures := plain_check |}.

(** The 32-byte ABI word of a small count. *)
Definition word (b : byte) : list byte := replicate 31 x00 ++ [b].

Definition proof : list byte := [x01].

Definition deployer : N := 1000.
Definition alice : N := 2001.
Definition bob : N := 2002.

Import Ledger.

(** A two-choice poll: created, opened, one vote for each choice, closed. *)
Definition createPoll : N * Call :=
  (deployer, CreateElection "Poll" ["Yes"; "No"] [0%N; 0%N] [proof; proof]).
Definition voting : list (N * Call) :=
  [ (deployer, OpenElection 0);
    (alice, CastVote 0 0 1 proof);
    (bob, CastVote 0 1 1 proof);
    (deployer, CloseElection 0) ].
Definition reveal (choice : N) : list (N * Call) :=
  [ (deployer, RequestChoiceReveal 0 choice);
    (alice, ResolveChoiceCallback 0 choice (word x01) proof) ].

Definition createdPoll : Enhanced.Contract :=
  run (fhe := plainOracle) [createPoll] (Enhanced.constructor deployer).
Definition openPoll : Enhanced.Contract :=
  run (fhe := plainOracle) [(deployer, OpenElection 0)] createdPoll.
Definition closedPoll : Enhanced.Contract :=
  run (fhe := plainOracle) voting createdPoll.
(** Choice 0 revealed, the reveal of choice 1 requested. *)
Definition halfRevealedPoll : Enhanced.Contract :=
  run (fhe := plainOracle)
      (reveal 0 ++ [(deployer, RequestChoiceReveal 0 1)]) closedPoll.
Definition revealedPoll : Enhanced.Contract :=
  run (fhe := plainOracle) (reveal 0 ++ reveal 1) closedPoll.

(** Choice 0 requested and resolved, choice 1 untouched. *)
Definition afterResolve0 : Enhanced.Contract :=
  run (fhe := plainOracle) (reveal 0) closedPoll.

Definition elevenLabels : list string :=
  ["a"; "b"; "c"; "d"; "e"; "f"; "g"; "h"; "i"; "j"; "k"].

(** The single-tally contract with one election, closed after one vote. *)
Definition closedTally : Basic.Contract :=
  let c0 := Basic.constructor deployer in
  let after (r : Basic.Tx unit) (c : Basic.Contract) :=
    match r with Ok (_, c', _) => c' | Revert _ => c end in
  let c1 := match Basic.createElection (fhe := plainOracle) deployer "Poll" 2 0 proof c0 with
            | Ok (_, c', _) => c' | Revert _ => c0 end in
  let c2 := after (Basic.openElection deployer 0 c1) c1 in
  let c3 := after (Basic.castVote (fhe := plainOracle) alice 0 1 proof c2) c2 in
  after (Basic.closeElection deployer 0 c3) c3.

End Fixture.

(** ** Concrete requests against the gateway *)

Module GatewayFixture.

Import Routes Storage.

(** A verifier that knows two signatures, made by two different keys. *)
Definition verifier (message signature : string) : option string :=
  if String.eqb signature "sig-owner" then Some "0xOwner"
  else if String.eqb signature "sig-other" then Some "0xOther"
  else None.

Definition described : ElectionMetadata :=
  mkMetadata (JS.Fin 5) (Some "Budget vote") (Some "2025-11-20") None None
             (Some "https://example.org/a.png") None.

Definition server0 : Server := mkServer ∅ (saveElectionMetadata described ∅).

(** A nonce issued at time 1000 for election 5. *)
Definition nonce5 : string := JS.to_hex (replicate 32 xab).
Definition server5 : Server :=
  (getNonce 1000 (replicate 32 xab) "5" server0).1.1.

Definition message5 : string :=
  "Toggle hidden for election 5 with nonce " +:+ nonce5.

Definition request (id signature : string) : ToggleRequest :=
  mkToggleRequest id (Some message5) (Some signature) (Some nonce5).

End GatewayFixture.

(** ** Counting the revealed choices of an election *)

Module Tally.

Import Enhanced.

(** How many indices below [n] satisfy [f]. *)
Fixpoint count_below (f : N -> bool) (n : nat) : nat :=
  match n with
  | O => O
  | S n' => count_below f n' + (if f (N.of_nat n') then 1 else 0)
  end.

Definition revealedChoices (e : Election) : nat :=
  count_below (choiceRevealed e) (N.to_nat (choiceCount e)).

(** A storage slot that [createElection] has not written yet: everything
    but the state is zero. *)
Definition untouched (e : Election) : Prop :=
  title e = EmptyString ∧ choiceLabels e = [] ∧ choiceCount e = 0%N
  ∧ fullyRevealed e = false ∧ revealedChoiceCount e = 0%N
  ∧ (∀ i, encryptedVotesPerChoice e i = 0%N ∧ revealedVotesPerChoice e i = 0%N
          ∧ choiceRevealed e i = false ∧ expectedHandles e i = 0%N)
  ∧ (∀ a, userVotes e a = 0%N ∧ hasVoted e a = false).

(** What holds of every election slot of a reachable storage. *)
Definition well_formed (c : Contract) : Prop :=
  ∀ id,
    ((id < electionCount c)%N →
       choiceCount (elections c id) = N.of_nat (length (choiceLabels (elections c id)))
       ∧ 2 ≤ length (choiceLabels (elections c id))
       ∧ revealedChoiceCount (elections c id)
         = N.of_nat (revealedChoices (elections c id))
       ∧ (fullyRevealed (elections c id) = true
          ↔ state (elections c id) = Revealed)
       ∧ (state (elections c id) = Revealed
          ↔ revealedChoices (elections c id)
            = N.to_nat (choiceCount (elections c id)))
       ∧ (∀ i, Ledger.rank (state (elections c id)) < 2 →
               choiceRevealed (elections c id) i = false
               ∧ expectedHandles (elections c id) i = 0%N)
       ∧ (∀ i, (choiceCount (elections c id) ≤ i)%N →
               choiceRevealed (elections c id) i = false))
    ∧ ((electionCount c ≤ id)%N →
         untouched (elections c id) ∧ state (elections c id) ≠ Revealed).

(** Each stored expected handle is unset, or the election is Closed or
    Revealed and the handle is that of the choice's current counter. *)
Definition handles_bound `{fhe : FHE.Oracle} (c : Contract) : Prop :=
  ∀ id ch,
    expectedHandles (elections c id) ch = 0%N
    ∨ (2 ≤ Ledger.rank (state (elections c id))
       ∧ expectedHandles (elections c id) ch
         = FHE.toBytes32 (encryptedVotesPerChoice (elections c id) ch)).

End Tally.

(** ** Sequences of transactions against VaultVote *)

Module BasicLedger.

Import Basic.

Inductive Call :=
| CreateElection (title : string) (choices : N) (zeroInput : N)
    (zeroProof : list byte)
| OpenElection (id : N)
| CloseElection (id : N)
| CastVote (id : N) (voteInput : N) (voteProof : list byte)
| RequestTallyReveal (id : N)
| ResolveTallyCallback (id : N) (cleartexts decryptionProof : list byte).

Section WithOracle.
Context `{fhe : FHE.Oracle}.

Definition exec (sender : N) (call : Call) (c : Contract)
  : Result (Contract * list Effect) :=
  match call with
  | CreateElection t n zi zp =>
      match createElection sender t n zi zp c with
      | Ok (_, c', log) => Ok (c', log)
      | Revert r => Revert r
      end
  | OpenElection id =>
      match openElection sender id c with
      | Ok (_, c', log) => Ok (c', log)
      | Revert r => Revert r
      end
  | CloseElection id =>
      match closeElection sender id c with
      | Ok (_, c', log) => Ok (c', log)
      | Revert r => Revert r
      end
  | CastVote id vi vp =>
      match castVote sender id vi vp c with
      | Ok (_, c', log) => Ok (c', log)
      | Revert r => Revert r
      end
  | RequestTallyReveal id =>
      match requestTallyReveal sender id c with
      | Ok (_, c', log) => Ok (c', log)
      | Revert r => Revert r
      end
  | ResolveTallyCallback id ct pf =>
      match resolveTallyCallback id ct pf c with
      | Ok (_, c', log) => Ok (c', log)
      | Revert r => Revert r
      end
  end.

Definition step (c : Contract) (tx : N * Call) : Contract :=
  match exec tx.1 tx.2 c with
  | Ok (c', _) => c'
  | Revert _ => c
  end.

Definition run (txs : list (N * Call)) (c : Contract) : Contract :=
  fold_left step txs c.

Definition reachable (c : Contract) : Prop :=
  ∃ deployer txs, c = run txs (constructor deployer).

(** Once a reveal is requested the election is Closed or Revealed and the
    expected handle is the handle of the tally. *)
Definition tally_bound (c : Contract) : Prop :=
  ∀ id, revealRequested (elections c id) = true →
        2 ≤ Ledger.rank (state (elections c id))
        ∧ expectedTallyHandle (elections c id)
          = FHE.toBytes32 (encryptedTally (elections c id)).

End WithOracle.

End BasicLedger.

(** ** The other metadata routes

    [POST /api/election-metadata], [GET /api/election-metadata/:id] and
    [GET /api/election-metadata]. The body of the POST is taken as
    [electionMetadataSchema.safeParse] leaves it: the parsed record, or
    [None] when the parse fails. *)

Module MetadataRoutes.

Import Storage Routes.

Inductive Reply :=
| Failure (status : N) (error : string)
| Saved
| Found (metadata : ElectionMetadata)
| Listing (all : list ElectionMetadata).

Definition postElectionMetadata (parsed : option ElectionMetadata)
    (st : Server) : Server * Reply :=
  match parsed with
  | None => (st, Failure 400 "Invalid metadata")
  | Some data =>
      match hidden data with
      | Some _ =>
          (st, Failure 400
                 "Cannot update hidden field directly. Use POST /api/election-metadata/:id/toggle-hidden")
      | None =>
          (mkServer (nonceStore st) (saveElectionMetadata data (storage st)),
           Saved)
      end
  end.

Definition getElectionMetadataRoute (id : string) (st : Server) : Reply :=
  match JS.parseInt10 id with
  | None => Failure 400 "Invalid election ID"
  | Some electionId =>
      match getElectionMetadata electionId (storage st) with
      | None => Failure 404 "Metadata not found"
      | Some metadata => Found metadata
      end
  end.

Definition getAllElectionMetadataRoute (st : Server) : Reply :=
  Listing (getAllElectionMetadata (storage st)).

(** The entries are those of a [Map], each key once, and every record is
    stored under its own election id, as [loadData] and
    [saveElectionMetadata] build the map. *)
Definition keyed (s : FileStorage) : Prop :=
  NoDup (electionMetadata s).*1
  ∧ ∀ k m, s !! k = Some m → Storage.electionId m = k.

End MetadataRoutes.

(** ** Sequences of requests to the metadata server

    The requests that touch the server's state, and the clean-up timer,
    in the order in which they are served. *)

Module ServerTrace.

Import Storage Routes MetadataRoutes.

Inductive Op :=
| Toggle (now : Z) (req : ToggleRequest)
| Nonce (now : Z) (random : list byte) (id : string)
| Sweep (now : Z)
| Save (parsed : option ElectionMetadata).

Section WithVerifier.
Variable verifyMessage : string → string → option string.

Definition serve1 (st : Server) (op : Op) : Server :=
  match op with
  | Toggle now req => (toggleHidden verifyMessage now req st).1.1
  | Nonce now random id => (getNonce now random id st).1.1
  | Sweep now => sweep now st
  | Save parsed => (postElectionMetadata parsed st).1
  end.

Definition serve (ops : list Op) (st : Server) : Server :=
  fold_left serve1 ops st.

End WithVerifier.

(** The nonce route draws the value [n] in this request. *)
Definition issues (n : string) (op : Op) : Prop :=
  match op with
  | Nonce _ random _ => JS.to_hex random = n
  | _ => False
  end.

End ServerTrace.

(** ** The winner as the client's [getElection] derives it *)

Module Client.

Import Enhanced.

(** The [winner] field of the election object: the label at the index
    [getWinner] returns, when the election is fully revealed, the call
    succeeds and the index is within the labels. *)
Definition winner (id : N) (c : Contract) : option string :=
  let '(_, choiceLabels, _, fullyRevealed) := getElection id c in
  if fullyRevealed then
    match getWinner id c with
    | Ok (winningIndex, _) =>
        if (winningIndex <? N.of_nat (length choiceLabels))%N
        then choiceLabels !! N.to_nat winningIndex
        else None
    | Revert _ => None
    end
  else None.

End Client.

(** ** A closed single-tally election with its reveal requested *)

Module BasicFixture.

Import Fixture BasicLedger.

Definition requestedTally : Basic.Contract :=
  step (fhe := plainOracle) closedTally (deployer, RequestTallyReveal 0).

Definition revealedTally : Basic.Contract :=
  step (fhe := plainOracle) requestedTally
       (alice, ResolveTallyCallback 0 (word x01) proof).

Definition tallySetup : list (N * Call) :=
  [ (deployer, CreateElection "Poll" 2 0 proof);
    (deployer, OpenElection 0);
    (alice, CastVote 0 1 proof);
    (deployer, CloseElection 0);
    (deployer, RequestTallyReveal 0);
    (alice, ResolveTallyCallback 0 (word x01) proof) ].

End BasicFixture.

(** * Properties of VaultVoteEnhanced *)

Module EnhancedProofs.

Import Enhanced Ledger.

Lemma state_eqb_true a b : state_eqb a b = true ↔ a = b.
Proof. unfold state_eqb. apply bool_decide_eq_true. Qed.

Lemma state_eqb_false a b : state_eqb a b = false ↔ a ≠ b.
Proof. unfold state_eqb. apply bool_decide_eq_false. Qed.

Lemma moves_forward_rank a b : moves_forward a b → rank a ≤ rank b.
Proof. intros [->|H]; [lia|]. destruct a; simplify_eq/=; lia. Qed.

Ltac fn_insert_cases :=
  repeat match goal with
  | |- context [ (<[?a := ?v]> ?f) ?b ] =>
      destruct (decide (a = b)) as [?|?];
      [ subst; rewrite ?fn_lookup_insert
      | rewrite (fn_lookup_insert_ne f a b v) by done ]
  end.

Section Oracle.
Context `{fhe : FHE.Oracle}.

Lemma createElection_loop_frame n : ∀ i zi zp e log e' log',
  createElection_loop n i zi zp e log = Ok (e', log') → loop_frame e e'.
Proof.
  induction n as [|n IH]; intros i zi zp e log e' log' H; simpl in H.
  - by simplify_eq.
  - repeat case_match; simplify_eq.
    apply IH in H. unfold loop_frame in *. simpl in H. done.
Qed.

(** What one transaction does to an election that already exists. *)
Lemma step_created c tx id :
  (id < electionCount c)%N →
  (id < electionCount (step c tx))%N
  ∧ choiceCount (elections (step c tx) id) = choiceCount (elections c id)
  ∧ moves_forward (state (elections c id)) (state (elections (step c tx) id))
  ∧ ∀ i, choiceRevealed (elections c id) i = true →
         choiceRevealed (elections (step c tx) id) i = true.
Proof.
  intros Hid. destruct tx as [sender call]. unfold step, exec; simpl.
  destruct call; simpl.
  all: unfold createElection, openElection, closeElection, castVote,
         requestChoiceReveal, resolveChoiceCallback, incr.
  all: repeat case_match; simplify_eq/=; rewrite ?state_eqb_true in *;
       fn_insert_cases; simplify_eq/=;
       split_and!;
       first [ done | lia | by left
             | match goal with
               | H : state _ = _ |- moves_forward _ _ => rewrite H; by right
               end
             | intros; fn_insert_cases; done ].
Qed.

(** [hasVoted] is only ever written with [true], whatever the id. *)
Lemma step_hasVoted c tx id a :
  hasVoted (elections c id) a = true →
  hasVoted (elections (step c tx) id) a = true.
Proof.
  intros Hv. destruct tx as [sender call]. unfold step, exec; simpl.
  destruct call; simpl.
  all: unfold createElection, openElection, closeElection, castVote,
         requestChoiceReveal, resolveChoiceCallback, incr.
  all: repeat case_match; simplify_eq/=; fn_insert_cases; simplify_eq/=;
       try done.
  - match goal with H : createElection_loop _ _ _ _ _ _ = _ |- _ =>
      apply createElection_loop_frame in H;
      destruct H as (_ & _ & _ & _ & _ & _ & -> & _) end.
    done.
  - fn_insert_cases; done.
Qed.

Lemma run_hasVoted txs : ∀ c id a,
  hasVoted (elections c id) a = true →
  hasVoted (elections (run txs c) id) a = true.
Proof.
  induction txs as [|tx txs IH]; intros c id a Hv; [done|].
  apply IH. by apply step_hasVoted.
Qed.

Lemma run_created txs : ∀ c id,
  (id < electionCount c)%N →
  (id < electionCount (run txs c))%N
  ∧ choiceCount (elections (run txs c) id) = choiceCount (elections c id)
  ∧ rank (state (elections c id)) ≤ rank (state (elections (run txs c) id))
  ∧ ∀ i, choiceRevealed (elections c id) i = true →
         choiceRevealed (elections (run txs c) id) i = true.
Proof.
  induction txs as [|tx txs IH]; intros c id Hid; [done|].
  destruct (step_created c tx id Hid) as (H1 & H2 & H3 & H4).
  destruct (IH (step c tx) id H1) as (G1 & G2 & G3 & G4).
  change (run (tx :: txs) c) with (run txs (step c tx)).
  split_and!; [done|congruence| |by auto].
  apply moves_forward_rank in H3. lia.
Qed.

(** The loop of [getWinner], started at [i] with a winner among the
    indices below [i], ends with the winner among those below [i + n]. *)
Lemma getWinner_loop_spec e n : ∀ i w,
  (w.1 < i)%N →
  w.2 = revealedVotesPerChoice e w.1 →
  (∀ j, (j < i)%N → (revealedVotesPerChoice e j ≤ w.2)%N) →
  (∀ j, (j < w.1)%N → (revealedVotesPerChoice e j < w.2)%N) →
  let r := getWinner_loop e n i w in
  (r.1 < i + N.of_nat n)%N
  ∧ r.2 = revealedVotesPerChoice e r.1
  ∧ (∀ j, (j < i + N.of_nat n)%N → (revealedVotesPerChoice e j ≤ r.2)%N)
  ∧ (∀ j, (j < r.1)%N → (revealedVotesPerChoice e j < r.2)%N).
Proof.
  induction n as [|n IH]; intros i [wi wv] Hlt Hval Hmax Hlow;
    cbn [getWinner_loop fst snd] in *.
  - rewrite N.add_0_r. done.
  - rewrite Nat2N.inj_succ.
    replace (i + N.succ (N.of_nat n))%N with (i + 1 + N.of_nat n)%N by lia.
    destruct (wv <? revealedVotesPerChoice e i)%N eqn:Hcmp.
    + apply N.ltb_lt in Hcmp.
      apply IH; simpl; [lia|done| |].
      * intros j Hj. destruct (decide (j = i)) as [->|]; [lia|].
        specialize (Hmax j). lia.
      * intros j Hj. specialize (Hmax j). lia.
    + apply N.ltb_ge in Hcmp.
      apply IH; simpl; [lia|done| |done].
      intros j Hj. destruct (decide (j = i)) as [->|]; [lia|].
      apply Hmax. lia.
Qed.

Lemma getWinner_spec c id :
  fullyRevealed (elections c id) = true →
  (0 < choiceCount (elections c id))%N →
  ∃ i v, getWinner id c = Ok (i, v)
    ∧ (i < choiceCount (elections c id))%N
    ∧ v = revealedVotesPerChoice (elections c id) i
    ∧ (∀ j, (j < choiceCount (elections c id))%N →
            (revealedVotesPerChoice (elections c id) j ≤ v)%N)
    ∧ (∀ j, (j < i)%N →
            (revealedVotesPerChoice (elections c id) j < v)%N).
Proof.
  intros Hfull Hpos. unfold getWinner. rewrite Hfull.
  set (e := elections c id) in *.
  destruct (getWinner_loop_spec e (N.to_nat (choiceCount e) - 1) 1
              (0%N, revealedVotesPerChoice e 0)) as (H1 & H2 & H3 & H4);
    simpl.
  { lia. }
  { done. }
  { intros j Hj. replace j with 0%N by lia. lia. }
  { intros j Hj. lia. }
  replace (1 + N.of_nat (N.to_nat (choiceCount e) - 1))%N
    with (choiceCount e) in * by lia.
  eexists _, _. split; [|split_and!]; [|done|done|done|done].
  by destruct (getWinner_loop _ _ _ _).
Qed.

(** A fully revealed election has at least one choice. *)
Lemma step_fullyRevealed c tx :
  (∀ id, fullyRevealed (elections c id) = true →
         (0 < choiceCount (elections c id))%N) →
  ∀ id, fullyRevealed (elections (step c tx) id) = true →
        (0 < choiceCount (elections (step c tx) id))%N.
Proof.
  intros Hinv id. specialize (Hinv id).
  destruct tx as [sender call]. unfold step, exec; simpl.
  destruct call; simpl.
  all: unfold createElection, openElection, closeElection, castVote,
         requestChoiceReveal, resolveChoiceCallback, incr.
  all: repeat case_match; simplify_eq/=; fn_insert_cases; simplify_eq/=;
       try done.
  - match goal with H : createElection_loop _ _ _ _ _ _ = _ |- _ =>
      apply createElection_loop_frame in H;
      destruct H as (_ & _ & -> & _ & _ & _ & _ & -> & _) end.
    done.
  - intros _. match goal with H : (_ <? choiceCount _)%N = true |- _ =>
      apply N.ltb_lt in H end. lia.
Qed.

Lemma reachable_constructor d : reachable (constructor d).
Proof. by exists d, []. Qed.

Lemma reachable_run txs c : reachable c → reachable (run txs c).
Proof.
  intros (d & txs0 & ->). exists d, (txs0 ++ txs).
  unfold run. by rewrite fold_left_app.
Qed.

Lemma reachable_fullyRevealed c id :
  reachable c → fullyRevealed (elections c id) = true →
  (0 < choiceCount (elections c id))%N.
Proof.
  intros (d & txs & ->). revert id.
  assert (Hinit : ∀ id, fullyRevealed (elections (constructor d) id) = true →
            (0 < choiceCount (elections (constructor d) id))%N) by done.
  revert Hinit. generalize (constructor d).
  induction txs as [|tx txs IH]; intros c Hinv; [done|].
  apply IH. by apply step_fullyRevealed.
Qed.

(** After a successful [resolveChoiceCallback] the election exists, is
    closed or revealed, and the choice is a revealed valid choice. *)
Lemma resolveChoiceCallback_post c id choice ct pf c1 log :
  resolveChoiceCallback id choice ct pf c = Ok (tt, c1, log) →
  (id < electionCount c1)%N
  ∧ (choice < choiceCount (elections c1 id))%N
  ∧ choiceRevealed (elections c1 id) choice = true
  ∧ 2 ≤ rank (state (elections c1 id)).
Proof.
  unfold resolveChoiceCallback, incr. intros H.
  repeat case_match; simplify_eq/=; rewrite ?state_eqb_true in *;
    rewrite ?N.ltb_lt in *; rewrite !fn_lookup_insert; simpl;
    rewrite ?fn_lookup_insert; split_and!; try done.
  all: first [ lia
             | match goal with H : state _ = _ |- _ => rewrite H end;
               simpl; lia ].
Qed.

(** X30: in every sequence of transactions, the state of an existing
    election (one whose id is below [electionCount]) changes only by
    staying where it is or moving to the next state of Created, Open,
    Closed, Revealed; it never reaches an earlier state again. *)
Theorem state_only_moves_forward (c : Contract) (txs : list (N * Call))
    (id : N) :
  (id < electionCount c)%N →
  let states := map (λ c', state (elections c' id)) (history txs c) in
  (∀ k a b, states !! k = Some a → states !! S k = Some b →
            moves_forward a b)
  ∧ (∀ j k a b, j ≤ k → states !! j = Some a → states !! k = Some b →
                rank a ≤ rank b).
Proof.
  revert c. induction txs as [|tx txs IH]; intros c Hid states.
  - subst states. simpl. split.
    + intros k a b _ Hb. by destruct k.
    + intros [|j] [|k] a b Hjk Ha Hb; simplify_eq/=; lia.
  - destruct (step_created c tx id Hid) as (Hid' & _ & Hfwd & _).
    destruct (IH (step c tx) Hid') as [IH1 IH2].
    assert (Hhd : map (λ c', state (elections c' id))
                      (history txs (step c tx)) !! 0
                  = Some (state (elections (step c tx) id))).
    { by destruct txs. }
    subst states. cbn [history map]. split.
    + intros [|k] a b Ha Hb.
      * simpl in Ha, Hb. rewrite Hhd in Hb. by simplify_eq.
      * by apply (IH1 k).
    + intros [|j] [|k] a b Hjk Ha Hb; simpl in Ha, Hb; simplify_eq; try lia.
      * apply moves_forward_rank in Hfwd.
        specialize (IH2 0 k _ b ltac:(lia) Hhd Hb). lia.
      * apply (IH2 j k); [lia|done|done].
Qed.

(** C5: a vote whose encrypted input the oracle ingests is accepted
    exactly when the election is Open, the choice index is below the
    choice count and the voter has not voted; once accepted, the voter's
    [hasVoted] flag is true after every later sequence of transactions. *)
Theorem castVote_accepted_iff (c : Contract) (voter id choiceIndex : N)
    (voteInput : N) (voteProof : list byte) (vote : N) :
  FHE.fromExternal voteInput voteProof = Some vote →
  ((∃ c' log, castVote voter id choiceIndex voteInput voteProof c
              = Ok (tt, c', log))
   ↔ state (elections c id) = Open
     ∧ (choiceIndex < choiceCount (elections c id))%N
     ∧ hasVoted (elections c id) voter = false)
  ∧ (∀ c' log txs,
       castVote voter id choiceIndex voteInput voteProof c = Ok (tt, c', log) →
       hasVoted (elections (run txs c') id) voter = true).
Proof.
  intros Hin. split; [split|].
  - intros (c' & log & H). unfold castVote in H.
    repeat case_match; simplify_eq.
    rewrite state_eqb_true, negb_true_iff, N.ltb_lt in *. done.
  - intros (Hopen & Hidx & Hnv). unfold castVote.
    apply state_eqb_true in Hopen. apply N.ltb_lt in Hidx.
    rewrite Hopen, Hnv, Hidx, Hin. simpl. eauto.
  - intros c' log txs H. apply run_hasVoted.
    unfold castVote in H. repeat case_match; simplify_eq/=.
    rewrite fn_lookup_insert. simpl. by rewrite fn_lookup_insert.
Qed.

(** C4 (amended): after one successful [resolveChoiceCallback] for an
    (election, choice), every later call for the same pair, with any
    cleartexts and proof and after any sequence of transactions, reverts:
    with "already revealed" while the election is still Closed, with
    "must be closed" once it is Revealed. *)
Theorem resolve_at_most_once (c : Contract) (id choice : N)
    (ct pf : list byte) (c1 : Contract) (log : list Effect)
    (txs : list (N * Call)) (ct' pf' : list byte) :
  resolveChoiceCallback id choice ct pf c = Ok (tt, c1, log) →
  (state (elections (run txs c1) id) = Closed
   ∧ resolveChoiceCallback id choice ct' pf' (run txs c1)
     = Revert (Require "already revealed"))
  ∨ (state (elections (run txs c1) id) = Revealed
     ∧ resolveChoiceCallback id choice ct' pf' (run txs c1)
       = Revert (Require "must be closed")).
Proof.
  intros H. apply resolveChoiceCallback_post in H as (Hid & Hch & Hrev & Hrk).
  destruct (run_created txs c1 id Hid) as (Hid2 & Hcc & Hrk2 & Hrev2).
  specialize (Hrev2 _ Hrev). rewrite <- Hcc in Hch.
  apply N.ltb_lt in Hid2, Hch.
  unfold resolveChoiceCallback. rewrite Hid2.
  destruct (state (elections (run txs c1) id)) eqn:Hst; simpl in *; try lia.
  - left. split; [done|]. unfold state_eqb; simpl.
    by rewrite Hch, Hrev2.
  - right. done.
Qed.

(** C7: for a fully revealed election of a reachable storage, [getWinner]
    returns an index of a choice and its revealed count, the count is
    the maximum of the revealed counts of all choices, and every choice
    with a lower index has a strictly smaller count. *)
Theorem getWinner_lowest_index_of_max (c : Contract) (id : N) :
  reachable c →
  fullyRevealed (elections c id) = true →
  ∃ i v, getWinner id c = Ok (i, v)
    ∧ (i < choiceCount (elections c id))%N
    ∧ v = revealedVotesPerChoice (elections c id) i
    ∧ (∀ j, (j < choiceCount (elections c id))%N →
            (revealedVotesPerChoice (elections c id) j ≤ v)%N)
    ∧ (∀ j, (j < i)%N →
            (revealedVotesPerChoice (elections c id) j < v)%N).
Proof.
  intros Hreach Hfull. apply getWinner_spec; [done|].
  by apply reachable_fullyRevealed.
Qed.

End Oracle.

Import Fixture.

Lemma state_only_moves_forward_witness :
  let states := map (λ c', state (elections c' 0%N))
                    (history (fhe := plainOracle)
                             (voting ++ reveal 0 ++ reveal 1) createdPoll) in
  (∀ k a b, states !! k = Some a → states !! S k = Some b → moves_forward a b)
  ∧ (∀ j k a b, j ≤ k → states !! j = Some a → states !! k = Some b →
                rank a ≤ rank b).
Proof.
  apply (state_only_moves_forward (fhe := plainOracle) createdPoll
           (voting ++ reveal 0 ++ reveal 1) 0%N).
  vm_compute. reflexivity.
Defined.

Lemma castVote_accepted_iff_witness :
  ((∃ c' log, castVote (fhe := plainOracle) alice 0 0 1 proof openPoll
              = Ok (tt, c', log))
   ↔ state (elections openPoll 0%N) = Open
     ∧ (0 < choiceCount (elections openPoll 0%N))%N
     ∧ hasVoted (elections openPoll 0%N) alice = false)
  ∧ (∀ c' log txs,
       castVote (fhe := plainOracle) alice 0 0 1 proof openPoll = Ok (tt, c', log) →
       hasVoted (elections (run (fhe := plainOracle) txs c') 0%N) alice = true).
Proof.
  apply (castVote_accepted_iff (fhe := plainOracle) openPoll alice 0 0 1 proof 1).
  reflexivity.
Defined.

(** C6: [openElection] and [closeElection] do not check that the id is
    below [electionCount], as [resolveChoiceCallback] does. On the fresh
    contract the owner's [openElection(0)] and [closeElection(0)] are
    accepted and move the storage slot 0 to Open and to Closed; the
    [createElection] that follows takes id 0 and writes Created into it:
    the states of slot 0 along the three transactions are Created, Open,
    Closed, Created, the last step going back by two. *)
Lemma state_reset_by_creation :
  let fresh := Enhanced.constructor deployer in
  let early := [ (deployer, OpenElection 0); (deployer, CloseElection 0);
                 createPoll ] in
  electionCount fresh = 0%N
  ∧ succeeds (openElection deployer 0 fresh) = true
  ∧ succeeds (closeElection deployer 0
                (run (fhe := plainOracle) (take 1 early) fresh)) = true
  ∧ succeeds (exec (fhe := plainOracle) createPoll.1 createPoll.2
                (run (fhe := plainOracle) (take 2 early) fresh)) = true
  ∧ map (λ c', state (elections c' 0%N))
        (history (fhe := plainOracle) early fresh)
    = [Created; Open; Closed; Created]
  ∧ ¬ moves_forward Closed Created
  ∧ rank Created < rank Closed.
Proof.
  cbn zeta. split_and!; try (vm_compute; reflexivity).
  - unfold moves_forward. cbn. intros [?|?]; discriminate.
  - cbn. lia.
Qed.

(** C4, as stated, fails: the second call after the resolution that
    completes the reveal reverts with "must be closed", not with "already
    revealed". *)
Lemma resolve_again_after_full_reveal :
  succeeds (resolveChoiceCallback (fhe := plainOracle) 0 1 (word x01) proof
              halfRevealedPoll) = true
  ∧ resolveChoiceCallback (fhe := plainOracle) 0 1 (word x01) proof
      (step (fhe := plainOracle) halfRevealedPoll
            (alice, ResolveChoiceCallback 0 1 (word x01) proof))
    = Revert (Require "must be closed").
Proof. split; vm_compute; reflexivity. Qed.

Lemma resolve_at_most_once_witness :
  (state (elections (run (fhe := plainOracle) (reveal 1) afterResolve0) 0%N)
   = Closed
   ∧ resolveChoiceCallback (fhe := plainOracle) 0 0 (word x02) proof
       (run (fhe := plainOracle) (reveal 1) afterResolve0)
     = Revert (Require "already revealed"))
  ∨ (state (elections (run (fhe := plainOracle) (reveal 1) afterResolve0) 0%N)
     = Revealed
     ∧ resolveChoiceCallback (fhe := plainOracle) 0 0 (word x02) proof
         (run (fhe := plainOracle) (reveal 1) afterResolve0)
       = Revert (Require "must be closed")).
Proof.
  apply (resolve_at_most_once (fhe := plainOracle)
           (run (fhe := plainOracle) [(deployer, RequestChoiceReveal 0 0)] closedPoll)
           0 0 (word x01) proof afterResolve0
           [Emit (ChoiceRevealed 0 0 1)] (reveal 1) (word x02) proof).
  vm_compute. reflexivity.
Defined.

Lemma getWinner_lowest_index_of_max_witness :
  ∃ i v, getWinner 0 revealedPoll = Ok (i, v)
    ∧ (i < choiceCount (elections revealedPoll 0%N))%N
    ∧ v = revealedVotesPerChoice (elections revealedPoll 0%N) i
    ∧ (∀ j, (j < choiceCount (elections revealedPoll 0%N))%N →
            (revealedVotesPerChoice (elections revealedPoll 0%N) j ≤ v)%N)
    ∧ (∀ j, (j < i)%N →
            (revealedVotesPerChoice (elections revealedPoll 0%N) j < v)%N).
Proof.
  apply (getWinner_lowest_index_of_max (fhe := plainOracle) revealedPoll 0%N).
  - unfold revealedPoll, closedPoll, createdPoll.
    do 3 apply reachable_run. apply reachable_constructor.
  - vm_compute. reflexivity.
Defined.

(** The two-choice poll end to end: a second vote by the same voter is
    refused, the poll ends Revealed and the tie goes to the lower index. *)
Example two_choice_poll :
  exec (fhe := plainOracle) alice (CastVote 0 0 1 proof)
       (run (fhe := plainOracle) (take 2 voting) createdPoll)
  = Revert (Require "already voted")
  ∧ state (elections revealedPoll 0%N) = Revealed
  ∧ getRevealedResults 0 revealedPoll = [1%N; 1%N]
  ∧ getWinner 0 revealedPoll = Ok (0%N, 1%N).
Proof. vm_compute. done. Qed.

End EnhancedProofs.

(** * The reveal protocol in both contracts, and election creation *)

Module RevealProofs.

Import Fixture.

Section Oracle.
Context `{fhe : FHE.Oracle}.

(** C2 (amended): in VaultVoteEnhanced a second [requestChoiceReveal] for
    the same unresolved choice is not rejected: it succeeds again and
    emits [ChoiceRevealRequested] again, the event and the stored expected
    handle both carrying the handle recomputed from the accumulator; the
    election stays Closed and the choice unrevealed, so the request can be
    repeated. When [makePubliclyDecryptable] returns the handle it is
    given, the second event is the first one again and the stored
    expected handle keeps its value. In VaultVote the second
    [requestTallyReveal] reverts with "reveal already requested", so
    nothing of the election changes. *)
Theorem second_reveal_request :
  (∀ c sender id choice c1 log1,
     Enhanced.requestChoiceReveal sender id choice c = Ok (tt, c1, log1) →
     let handle :=
       FHE.toBytes32
         (FHE.makePubliclyDecryptable
            (Enhanced.encryptedVotesPerChoice (Enhanced.elections c1 id) choice)) in
     ∃ c2,
       Enhanced.requestChoiceReveal sender id choice c1
       = Ok (tt, c2,
             [Enhanced.Emit (Enhanced.ChoiceRevealRequested id choice handle)])
       ∧ Enhanced.expectedHandles (Enhanced.elections c2 id) choice = handle
       ∧ Enhanced.state (Enhanced.elections c2 id) = Enhanced.Closed
       ∧ Enhanced.choiceRevealed (Enhanced.elections c2 id) choice = false
       ∧ ((∀ h, FHE.makePubliclyDecryptable h = h) →
          log1 = [Enhanced.Emit (Enhanced.ChoiceRevealRequested id choice handle)]
          ∧ Enhanced.expectedHandles (Enhanced.elections c2 id) choice
            = Enhanced.expectedHandles (Enhanced.elections c1 id) choice))
  ∧ (∀ c sender id c1 log1,
       Basic.requestTallyReveal sender id c = Ok (tt, c1, log1) →
       Basic.requestTallyReveal sender id c1
       = Revert (Require "reveal already requested")).
Proof.
  split.
  - intros c sender id choice c1 log1 H.
    unfold Enhanced.requestChoiceReveal in H.
    repeat case_match; simplify_eq.
    rewrite EnhancedProofs.state_eqb_true in *.
    unfold Enhanced.requestChoiceReveal, Enhanced.store. cbn.
    rewrite !fn_lookup_insert. cbn.
    rewrite !fn_lookup_insert.
    repeat match goal with H : _ = true |- _ => rewrite H end.
    match goal with H : Enhanced.state _ = _ |- _ => rewrite H end.
    cbn. eexists. split; [reflexivity|].
    cbn. rewrite !fn_lookup_insert. cbn. rewrite !fn_lookup_insert.
    split_and!; [done|done|by apply negb_true_iff|].
    intros Hid. by rewrite !Hid.
  - intros c sender id c1 log1 H.
    unfold Basic.requestTallyReveal in H.
    repeat case_match; simplify_eq.
    unfold Basic.requestTallyReveal, Basic.store. cbn.
    rewrite !fn_lookup_insert. cbn.
    repeat match goal with H : _ = true |- _ => rewrite H end.
    done.
Qed.

(** C3 (amended): VaultVoteEnhanced has no "reveal not requested" guard.
    For an existing election, [resolveChoiceCallback] reverts with "must
    be closed" unless the election is Closed; when it is Closed and the
    choice is valid and unrevealed, the call succeeds exactly when the
    oracle certifies the stored expected handle (zero if no reveal was
    ever requested) and the cleartext decodes. In VaultVote,
    [resolveTallyCallback] on an existing election without a reveal
    request reverts with "reveal not requested". A call that does not
    succeed leaves the storage as it was. *)
Theorem resolve_without_request :
  (∀ c id choice ct pf,
     (id < Enhanced.electionCount c)%N →
     Enhanced.state (Enhanced.elections c id) ≠ Enhanced.Closed →
     Enhanced.resolveChoiceCallback id choice ct pf c
     = Revert (Require "must be closed"))
  ∧ (∀ c id choice ct pf,
       (id < Enhanced.electionCount c)%N →
       Enhanced.state (Enhanced.elections c id) = Enhanced.Closed →
       (choice < Enhanced.choiceCount (Enhanced.elections c id))%N →
       Enhanced.choiceRevealed (Enhanced.elections c id) choice = false →
       (succeeds (Enhanced.resolveChoiceCallback id choice ct pf c) = true
        ↔ FHE.checkSignatures
            [Enhanced.expectedHandles (Enhanced.elections c id) choice] ct pf
          = true
          ∧ is_Some (abi_decode_uint32 ct)
          ∧ (Enhanced.revealedChoiceCount (Enhanced.elections c id)
             < uint256_max)%N))
  ∧ (∀ c id ct pf,
       (id < Basic.electionCount c)%N →
       Basic.revealRequested (Basic.elections c id) = false →
       Basic.resolveTallyCallback id ct pf c
       = Revert (Require "reveal not requested"))
  ∧ (∀ c sender id choice ct pf,
       succeeds (Enhanced.resolveChoiceCallback id choice ct pf c) = false →
       Ledger.step c (sender, Ledger.ResolveChoiceCallback id choice ct pf) = c).
Proof.
  split_and!.
  - intros c id choice ct pf Hid Hst.
    unfold Enhanced.resolveChoiceCallback.
    apply N.ltb_lt in Hid. rewrite Hid.
    apply EnhancedProofs.state_eqb_false in Hst. by rewrite Hst.
  - intros c id choice ct pf Hid Hst Hch Hrev.
    unfold Enhanced.resolveChoiceCallback, incr.
    apply N.ltb_lt in Hid, Hch. rewrite Hid, Hst, Hch, Hrev. cbn.
    destruct (FHE.checkSignatures _ ct pf); cbn;
      [|split; [done|by intros [? _]]].
    destruct (abi_decode_uint32 ct) as [v|]; cbn;
      [|split; [done|by intros (_ & [? ?] & _)]].
    assert (Hlt : (Enhanced.revealedChoiceCount (Enhanced.elections c id)
                   <? uint256_max)%N = true
                  ↔ (Enhanced.revealedChoiceCount (Enhanced.elections c id)
                     < uint256_max)%N) by apply N.ltb_lt.
    destruct (Enhanced.revealedChoiceCount (Enhanced.elections c id)
              <? uint256_max)%N; cbn.
    + destruct (_ =? _)%N; cbn;
        (split; [intros _; split_and!; [done|by eexists|by apply Hlt] | done]).
    + split; [done|]. intros (_ & _ & ?). by apply Hlt.
  - intros c id ct pf Hid Hreq. unfold Basic.resolveTallyCallback.
    apply N.ltb_lt in Hid. by rewrite Hid, Hreq.
  - intros c sender id choice ct pf Hfail. unfold Ledger.step; cbn.
    by destruct (Enhanced.resolveChoiceCallback id choice ct pf c)
      as [[[? ?] ?]|].
Qed.

(** C8 (amended): the contract's [createElection] succeeds only for the
    owner, with at least two choice labels and as many zero inputs and
    zero proofs as labels; it bounds neither the number of labels from
    above nor their length. The bound of ten labels and the non-empty
    labels are checks of the client's form schema only, which accepts an
    input exactly when the title has at least 3 characters, there are 2
    to 10 labels and no label is empty as entered. *)
Theorem createElection_requirements :
  (∀ c sender title labels zeroInputs zeroProofs id c' log,
     Enhanced.createElection sender title labels zeroInputs zeroProofs c
     = Ok (id, c', log) →
     sender = Enhanced.owner c
     ∧ 2 ≤ length labels
     ∧ length zeroInputs = length labels
     ∧ length zeroProofs = length labels)
  ∧ (∀ i,
       is_Some (Schema.createElectionSchema i)
       ↔ 3 ≤ String.length (Schema.title i)
         ∧ 2 ≤ length (Schema.choiceLabels i) ≤ 10
         ∧ Forall (λ l, 1 ≤ String.length l) (Schema.choiceLabels i)).
Proof.
  split.
  - intros c sender title labels zi zp id c' log H.
    unfold Enhanced.createElection, incr in H.
    repeat case_match; simplify_eq.
    repeat match goal with
           | H : bool_decide _ = true |- _ => apply bool_decide_eq_true in H
           | H : (_ <? _)%nat = true |- _ => apply Nat.ltb_lt in H
           | H : (_ =? _)%nat = true |- _ => apply Nat.eqb_eq in H
           end.
    split_and!; [done|lia|done|done].
  - intros i. unfold Schema.createElectionSchema, Schema.createElectionSchema_issues.
    assert (Hlabels : concat (map Schema.label_issues (Schema.choiceLabels i)) = []
                      ↔ Forall (λ l, 1 ≤ String.length l) (Schema.choiceLabels i)).
    { induction (Schema.choiceLabels i) as [|l ls IH]; simpl.
      - split; [constructor|done].
      - unfold Schema.label_issues at 1.
        destruct (String.length l <? 1)%nat eqn:Hl; simpl.
        + apply Nat.ltb_lt in Hl. split; [done|].
          intros Hall. inversion Hall; subst. lia.
        + apply Nat.ltb_ge in Hl. rewrite IH. split.
          * intros ?. by constructor.
          * intros Hall. by inversion Hall. }
    destruct (String.length (Schema.title i) <? 3)%nat eqn:Ht;
      [apply Nat.ltb_lt in Ht | apply Nat.ltb_ge in Ht]; simpl.
    { split; [by intros [? ?]|]. intros (? & _). lia. }
    destruct (length (Schema.choiceLabels i) <? 2)%nat eqn:Hmin;
      [apply Nat.ltb_lt in Hmin | apply Nat.ltb_ge in Hmin]; simpl.
    { split; [by intros [? ?]|]. intros (_ & ? & _). lia. }
    destruct (10 <? length (Schema.choiceLabels i))%nat eqn:Hmax;
      [apply Nat.ltb_lt in Hmax | apply Nat.ltb_ge in Hmax]; simpl.
    { split; [by intros [? ?]|]. intros (_ & ? & _). lia. }
    destruct (concat _) eqn:Hc.
    + split; [|by eauto]. intros _. split_and!; [done|done|done|].
      by apply Hlabels.
    + split; [by intros [? ?]|]. intros (_ & _ & Hall).
      apply Hlabels in Hall. done.
Qed.

End Oracle.

(** C2, as stated, fails: on the closed poll the owner's second request
    for choice 0 is accepted again. *)
Lemma second_request_accepted :
  let c1 := Ledger.step (fhe := plainOracle) closedPoll
              (deployer, Ledger.RequestChoiceReveal 0 0) in
  succeeds (Enhanced.requestChoiceReveal (fhe := plainOracle) deployer 0 0 closedPoll)
  = true
  ∧ Enhanced.choiceRevealed (Enhanced.elections c1 0%N) 0%N = false
  ∧ succeeds (Enhanced.requestChoiceReveal (fhe := plainOracle) deployer 0 0 c1)
    = true.
Proof. vm_compute. done. Qed.

Lemma second_reveal_request_witness :
  (let handle :=
     FHE.toBytes32 (Oracle := plainOracle)
       (FHE.makePubliclyDecryptable (Oracle := plainOracle)
          (Enhanced.encryptedVotesPerChoice
             (Enhanced.elections
                (Ledger.run (fhe := plainOracle)
                   [(deployer, Ledger.RequestChoiceReveal 0 0)] closedPoll) 0%N)
             0%N)) in
   ∃ c2,
     Enhanced.requestChoiceReveal (fhe := plainOracle) deployer 0 0
       (Ledger.run (fhe := plainOracle)
          [(deployer, Ledger.RequestChoiceReveal 0 0)] closedPoll)
     = Ok (tt, c2, [Enhanced.Emit (Enhanced.ChoiceRevealRequested 0 0 handle)])
     ∧ Enhanced.expectedHandles (Enhanced.elections c2 0%N) 0%N = handle
     ∧ Enhanced.state (Enhanced.elections c2 0%N) = Enhanced.Closed
     ∧ Enhanced.choiceRevealed (Enhanced.elections c2 0%N) 0%N = false
     ∧ ((∀ h, FHE.makePubliclyDecryptable (Oracle := plainOracle) h = h) →
        [Enhanced.Emit (Enhanced.ChoiceRevealRequested 0 0 1)]
        = [Enhanced.Emit (Enhanced.ChoiceRevealRequested 0 0 handle)]
        ∧ Enhanced.expectedHandles (Enhanced.elections c2 0%N) 0%N
          = Enhanced.expectedHandles
              (Enhanced.elections
                 (Ledger.run (fhe := plainOracle)
                    [(deployer, Ledger.RequestChoiceReveal 0 0)] closedPoll) 0%N)
              0%N))
  ∧ Basic.requestTallyReveal (fhe := plainOracle) deployer 0
      (match Basic.requestTallyReveal (fhe := plainOracle) deployer 0 closedTally with
       | Ok (_, c1, _) => c1
       | Revert _ => closedTally
       end)
    = Revert (Require "reveal already requested").
Proof.
  split.
  - apply (proj1 (second_reveal_request (fhe := plainOracle))
             closedPoll deployer 0%N 0%N _
             [Enhanced.Emit (Enhanced.ChoiceRevealRequested 0 0 1)]).
    vm_compute. reflexivity.
  - apply (proj2 (second_reveal_request (fhe := plainOracle))
             closedTally deployer 0%N _
             [Basic.Emit (Basic.TallyRevealRequested 0 1)]).
    vm_compute. reflexivity.
Defined.

(** C3, as stated, fails: on the open poll the call reverts with "must be
    closed", and on the closed poll, where no reveal was requested, the
    transparent oracle certifies the unset handle and the call goes
    through, marking the choice revealed. *)
Lemma resolve_unrequested_not_guarded :
  Enhanced.resolveChoiceCallback (fhe := plainOracle) 0 0 (word x00) proof openPoll
  = Revert (Require "must be closed")
  ∧ Enhanced.expectedHandles (Enhanced.elections closedPoll 0%N) 0%N = 0%N
  ∧ succeeds (Enhanced.resolveChoiceCallback (fhe := plainOracle) 0 0 (word x00)
                proof closedPoll) = true
  ∧ Enhanced.choiceRevealed
      (Enhanced.elections
         (Ledger.step (fhe := plainOracle) closedPoll
            (alice, Ledger.ResolveChoiceCallback 0 0 (word x00) proof)) 0%N) 0%N
    = true.
Proof. vm_compute. done. Qed.

Lemma resolve_without_request_witness :
  Enhanced.resolveChoiceCallback (fhe := plainOracle) 0 0 (word x00) proof openPoll
  = Revert (Require "must be closed")
  ∧ Basic.resolveTallyCallback (fhe := plainOracle) 0 (word x01) proof closedTally
    = Revert (Require "reveal not requested").
Proof.
  destruct (resolve_without_request (fhe := plainOracle)) as (H1 & _ & H3 & _).
  split.
  - apply H1; [vm_compute; reflexivity|]. vm_compute. discriminate.
  - apply H3; vm_compute; reflexivity.
Defined.

(** C8, as stated, fails: the contract creates an election with eleven
    labels, and one with an empty label. *)
Lemma createElection_accepts_eleven_and_empty :
  succeeds (Enhanced.createElection (fhe := plainOracle) deployer "Poll"
              elevenLabels (replicate 11 0%N) (replicate 11 proof)
              (Enhanced.constructor deployer)) = true
  ∧ Enhanced.electionCount
      (Ledger.step (fhe := plainOracle) (Enhanced.constructor deployer)
         (deployer, Ledger.CreateElection "Poll" elevenLabels
                      (replicate 11 0%N) (replicate 11 proof))) = 1%N
  ∧ succeeds (Enhanced.createElection (fhe := plainOracle) deployer "Poll"
                ["Yes"; EmptyString] [0%N; 0%N] [proof; proof]
                (Enhanced.constructor deployer)) = true.
Proof. vm_compute. done. Qed.

Lemma createElection_requirements_witness :
  (deployer = Enhanced.owner (Enhanced.constructor deployer)
   ∧ 2 ≤ length ["Yes"; "No"]
   ∧ length [0%N; 0%N] = length ["Yes"; "No"]
   ∧ length [proof; proof] = length ["Yes"; "No"]).
Proof.
  apply (proj1 (createElection_requirements (fhe := plainOracle))
           (Enhanced.constructor deployer) deployer "Poll" ["Yes"; "No"]
           [0%N; 0%N] [proof; proof] 0%N createdPoll
           [Enhanced.AllowThis 0; Enhanced.AllowThis 0;
            Enhanced.Emit (Enhanced.ElectionCreated 0 "Poll" ["Yes"; "No"])]).
  vm_compute. reflexivity.
Defined.

End RevealProofs.

(** * The nonce gateway *)

Module GatewayProofs.

Import Routes Storage ServerTrace.

(** [Map.prototype.get] after [Map.prototype.set]. *)
Lemma entries_get_set_eq k v es : entries_get k (entries_set k v es) = Some v.
Proof.
  induction es as [|[k' m] es IH]; simpl.
  - by rewrite decide_True.
  - destruct (decide (k' = k)) as [->|Hne]; simpl.
    + by rewrite decide_True.
    + by rewrite decide_False.
Qed.

Lemma entries_get_set_ne k k' v es :
  k ≠ k' → entries_get k' (entries_set k v es) = entries_get k' es.
Proof.
  intros Hk. induction es as [|[k0 m] es IH]; simpl.
  - by rewrite decide_False.
  - destruct (decide (k0 = k)) as [->|Hne]; simpl.
    + by rewrite !decide_False.
    + by rewrite IH.
Qed.

Lemma storage_lookup_insert_eq (s : FileStorage) k v : <[k := v]> s !! k = Some v.
Proof. apply entries_get_set_eq. Qed.

Lemma storage_lookup_insert_ne (s : FileStorage) k k' v :
  k ≠ k' → <[k := v]> s !! k' = s !! k'.
Proof. apply entries_get_set_ne. Qed.

Lemma span_app f ds rest :
  JS.all_chars f ds = true →
  match rest with EmptyString => True | String c _ => f c = false end →
  JS.span f (ds +:+ rest) = (ds, rest).
Proof.
  intros Hall Hrest. induction ds as [|c ds IH]; simpl in *.
  - destruct rest as [|c r]; [done|]. simpl. by rewrite Hrest.
  - apply andb_true_iff in Hall as [Hc Hds]. by rewrite Hc, IH.
Qed.

(** The hexadecimal rendering of bytes is made of [[a-f0-9]] only. *)
Lemma hex_digit_is_hex n : (n < 16)%N → JS.is_hex (JS.hex_digit n) = true.
Proof.
  intros Hn. assert (Hcases : n ∈ map N.of_nat (seq 0 16)).
  { apply list_elem_of_fmap. exists (N.to_nat n). split; [lia|].
    apply list_elem_of_In, in_seq. lia. }
  simpl in Hcases. set_unfold.
  repeat (destruct Hcases as [->|Hcases]; [reflexivity|]). done.
Qed.

Lemma to_hex_is_hex bs : JS.all_chars JS.is_hex (JS.to_hex bs) = true.
Proof.
  induction bs as [|b bs IH]; [done|]. cbn [JS.to_hex JS.all_chars].
  rewrite IH, !hex_digit_is_hex; [done| |].
  - apply N.mod_upper_bound. lia.
  - apply N.Div0.div_lt_upper_bound. pose proof (Byte.to_N_bounded b). lia.
Qed.

Lemma strip_prefix_app p s : JS.strip_prefix p (p +:+ s) = Some s.
Proof.
  induction p as [|c p IH]; simpl; [by destruct s|].
  by rewrite Ascii.eqb_refl.
Qed.

(** A message built on the template is matched, with its two fields. *)
Lemma messagePattern_template digits n :
  digits ≠ EmptyString → JS.all_chars JS.is_digit digits = true →
  n ≠ EmptyString → JS.all_chars JS.is_hex n = true →
  messagePattern
    ("Toggle hidden for election " +:+ digits +:+ " with nonce " +:+ n)
  = Some (digits, n).
Proof.
  intros Hd Hdigits Hn Hhex. unfold messagePattern.
  rewrite strip_prefix_app.
  rewrite (span_app JS.is_digit digits (" with nonce " +:+ n)); [|done|done].
  destruct digits as [|c ds]; [done|].
  rewrite strip_prefix_app.
  destruct n as [|c' n']; [done|]. by rewrite Hhex.
Qed.

Section WithVerifier.
Variable verifyMessage : string → string → option string.

(** The handler never brings an absent nonce into the store. *)
Lemma toggleHidden_absent (now : Z) (req : ToggleRequest) (st : Server)
    (n : string) :
  nonceStore st !! n = None →
  nonceStore (toggleHidden verifyMessage now req st).1.1 !! n = None.
Proof.
  intros Hn. unfold toggleHidden. repeat case_match; cbn; try done.
  all: apply lookup_delete_None; by right.
Qed.

(** A nonce that is not in the store stays out of it while the nonce
    route does not draw the same value again. *)
Lemma serve_absent (ops : list Op) (st : Server) (n : string) :
  Forall (λ op, ¬ issues n op) ops →
  nonceStore st !! n = None →
  nonceStore (serve verifyMessage ops st) !! n = None.
Proof.
  intros Hops. revert st. induction Hops as [|op ops Hop _ IH]; intros st Hn.
  - done.
  - cbn. apply IH. destruct op as [now req|now random id|now|parsed]; cbn.
    + by apply toggleHidden_absent.
    + unfold getNonce. case_match; cbn; [|done].
      rewrite lookup_insert_ne; [done|]. exact Hop.
    + apply map_lookup_filter_None. by left.
    + unfold MetadataRoutes.postElectionMetadata. by repeat case_match.
Qed.

(** C1 (amended): the handler changes the nonce store only by deleting
    the request's nonce, and only when the request is complete (the
    route's id parses; message, signature and nonce are present), the
    nonce is in the store and its election id is the route's. In that
    case the nonce is deleted whatever the outcome of the later checks,
    and no request carrying it is accepted afterwards, through any
    sequence of toggle requests, nonce requests, clean-ups and metadata
    saves in which the nonce route does not draw the same value again. A
    request whose election id does not match is rejected with the whole
    state left untouched, so the nonce stays usable. *)
Theorem nonce_consumed_after_id_match (now : Z) (req : ToggleRequest)
    (st : Server) :
  let st' := (toggleHidden verifyMessage now req st).1.1 in
  let resp := (toggleHidden verifyMessage now req st).1.2 in
  (∀ eid m sg n d,
     JS.parseInt10 (params_id req) = Some eid →
     JS.truthy (message req) = Some m →
     JS.truthy (signature req) = Some sg →
     JS.truthy (req_nonce req) = Some n →
     nonceStore st !! n = Some d →
     (Routes.electionId d = eid →
        nonceStore st' = delete n (nonceStore st)
        ∧ ∀ ops now' req',
            Forall (λ op, ¬ issues n op) ops →
            JS.truthy (req_nonce req') = Some n →
            status (toggleHidden verifyMessage now' req'
                      (serve verifyMessage ops st')).1.2 ≠ 200%N)
     ∧ (Routes.electionId d ≠ eid →
          st' = st
          ∧ resp = mkResponse 400 (ErrorBody "Nonce does not match election ID")))
  ∧ (∀ n, nonceStore st' !! n ≠ nonceStore st !! n →
       ∃ eid m sg d,
         JS.parseInt10 (params_id req) = Some eid
         ∧ JS.truthy (message req) = Some m
         ∧ JS.truthy (signature req) = Some sg
         ∧ JS.truthy (req_nonce req) = Some n
         ∧ nonceStore st !! n = Some d
         ∧ Routes.electionId d = eid).
Proof.
  intros st' resp. split.
  - intros eid m sg n d Hid Hm Hsg Hn Hd. split.
    + intros Heq.
      assert (Hdel : nonceStore st' = delete n (nonceStore st)).
      { subst st'. unfold toggleHidden. rewrite Hid, Hm, Hsg, Hn, Hd.
        rewrite bool_decide_eq_true_2 by done. cbn [negb].
        by repeat case_match. }
      split; [done|]. intros ops now' req' Hops Hn'.
      assert (Hgone : nonceStore (serve verifyMessage ops st') !! n = None).
      { apply serve_absent; [done|]. rewrite Hdel. apply lookup_delete_eq. }
      unfold toggleHidden. rewrite Hn', Hgone.
      repeat case_match; cbn; done.
    + intros Hne. subst st' resp. unfold toggleHidden.
      rewrite Hid, Hm, Hsg, Hn, Hd.
      rewrite bool_decide_eq_false_2 by done. done.
  - intros n. subst st'. unfold toggleHidden.
    destruct (JS.parseInt10 (params_id req)) as [eid|]; [|done].
    destruct (JS.truthy (message req)) as [m|]; [|done].
    destruct (JS.truthy (signature req)) as [sg|]; [|done].
    destruct (JS.truthy (req_nonce req)) as [n0|]; [|done].
    destruct (nonceStore st !! n0) as [d|] eqn:Hd; [|done].
    destruct (bool_decide (Routes.electionId d = eid)) eqn:Heq; [|done].
    apply bool_decide_eq_true in Heq. cbn [negb].
    intros Hneq. destruct (decide (n = n0)) as [->|Hn].
    + by exists eid, m, sg, d.
    + exfalso. apply Hneq.
      repeat case_match; cbn; by rewrite lookup_delete_ne.
Qed.

(** C9: a request with an unexpired nonce issued for the route's
    election and a message on the exact template succeeds whoever
    signed it: for two signatures recovered to any two addresses the
    server state and the response are the same, the response is the
    success with the toggled flag, and the address only shows in the
    log. *)
Theorem toggle_ignores_signer (now : Z) (st : Server) (params digits n : string)
    (eid : JS.num) (d : NonceData) (sg1 sg2 a1 a2 : string) :
  let msg := "Toggle hidden for election " +:+ digits +:+ " with nonce " +:+ n in
  let req sg := mkToggleRequest params (Some msg) (Some sg) (Some n) in
  let flag := negb (default false (storage st !! eid ≫= hidden)) in
  JS.parseInt10 params = Some eid →
  digits ≠ EmptyString → JS.all_chars JS.is_digit digits = true →
  JS.parseInt10 digits = Some eid →
  n ≠ EmptyString → JS.all_chars JS.is_hex n = true →
  nonceStore st !! n = Some d → Routes.electionId d = eid →
  ¬ (expiresAt d < now)%Z →
  sg1 ≠ EmptyString → sg2 ≠ EmptyString →
  verifyMessage msg sg1 = Some a1 → verifyMessage msg sg2 = Some a2 →
  (toggleHidden verifyMessage now (req sg1) st).1
  = (toggleHidden verifyMessage now (req sg2) st).1
  ∧ toggleHidden verifyMessage now (req sg1) st
    = (mkServer (delete n (nonceStore st))
                (<[eid := mkMetadata eid None None None None None (Some flag)]>
                   (storage st)),
       mkResponse 200 (ToggleBody true flag),
       [LogVerified eid a1; LogHiddenChanged eid flag]).
Proof.
  intros msg req flag Hid Hd Hdigits Hpd Hn Hhex Hstore Heq Hexp
         Hs1 Hs2 Hv1 Hv2.
  assert (Hrun : ∀ sg a, sg ≠ EmptyString → verifyMessage msg sg = Some a →
            toggleHidden verifyMessage now (req sg) st
            = (mkServer (delete n (nonceStore st))
                 (<[eid := mkMetadata eid None None None None None (Some flag)]>
                    (storage st)),
               mkResponse 200 (ToggleBody true flag),
               [LogVerified eid a; LogHiddenChanged eid flag])).
  { intros sg a Hsg Hv. unfold toggleHidden, req.
    cbn [params_id message signature req_nonce].
    rewrite Hid.
    assert (Hmsg : JS.truthy (Some msg) = Some msg) by done.
    assert (Hsgt : JS.truthy (Some sg) = Some sg) by by destruct sg.
    assert (Hnt : JS.truthy (Some n) = Some n) by by destruct n.
    rewrite Hmsg, Hsgt, Hnt, Hstore.
    rewrite bool_decide_eq_true_2 by done. cbn [negb].
    destruct (expiresAt d <? now)%Z eqn:Hlt; [apply Z.ltb_lt in Hlt; lia|].
    rewrite Hv. subst msg. rewrite messagePattern_template by done.
    rewrite Hpd. rewrite !bool_decide_eq_true_2 by done. done. }
  rewrite (Hrun sg1 a1), (Hrun sg2 a2) by done. done.
Qed.

(** C10: after a successful toggle the election's stored metadata is
    exactly the record made of the election id and the new hidden flag:
    description, times and image of the previous record are gone. The
    other elections' records are untouched. *)
Theorem toggle_replaces_metadata (now : Z) (req : ToggleRequest)
    (st st' : Server) (flag : bool) (log : list Log) :
  toggleHidden verifyMessage now req st
  = (st', mkResponse 200 (ToggleBody true flag), log) →
  ∃ eid, JS.parseInt10 (params_id req) = Some eid
    ∧ storage st' !! eid
      = Some (mkMetadata eid None None None None None (Some flag))
    ∧ flag = negb (default false (storage st !! eid ≫= hidden))
    ∧ ∀ k, k ≠ eid → storage st' !! k = storage st !! k.
Proof.
  unfold toggleHidden. intros H.
  repeat case_match; simplify_eq.
  eexists. split; [done|]. cbn.
  unfold saveElectionMetadata, getElectionMetadata; cbn.
  split_and!; [by rewrite storage_lookup_insert_eq|done|].
  intros k Hk. by rewrite storage_lookup_insert_ne.
Qed.

End WithVerifier.

Import GatewayFixture.

(** C1, as stated, fails: the attempt for election 6 is rejected and
    leaves the nonce in the store, and the retry for election 5 with the
    same nonce is accepted. *)
Lemma nonce_survives_mismatch :
  let first := toggleHidden verifier 2000 (request "6" "sig-owner") server5 in
  first.1.2 = mkResponse 400 (ErrorBody "Nonce does not match election ID")
  ∧ is_Some (nonceStore first.1.1 !! nonce5)
  ∧ (toggleHidden verifier 3000 (request "5" "sig-owner") first.1.1).1.2
    = mkResponse 200 (ToggleBody true true).
Proof. vm_compute. eauto. Qed.

Lemma nonce_consumed_after_id_match_witness :
  let st' := (toggleHidden verifier 2000 (request "5" "bad") server5).1.1 in
  nonceStore st' = delete nonce5 (nonceStore server5)
  ∧ status (toggleHidden verifier 5000 (request "5" "sig-owner")
              (serve verifier
                     [Sweep 3000; Nonce 3500 [x01] "5";
                      Toggle 4000 (request "5" "sig-owner")] st')).1.2
    ≠ 200%N.
Proof.
  intros st'.
  assert (Hid : JS.parseInt10 (params_id (request "5" "bad")) = Some (JS.Fin 5))
    by (vm_compute; reflexivity).
  assert (Hm : JS.truthy (message (request "5" "bad")) = Some message5)
    by (vm_compute; reflexivity).
  assert (Hsg : JS.truthy (signature (request "5" "bad")) = Some "bad")
    by (vm_compute; reflexivity).
  assert (Hn : JS.truthy (req_nonce (request "5" "bad")) = Some nonce5)
    by (vm_compute; reflexivity).
  assert (Hd : nonceStore server5 !! nonce5
               = Some (mkNonceData nonce5 (JS.Fin 5) 301000))
    by (vm_compute; reflexivity).
  destruct (proj1 (nonce_consumed_after_id_match verifier 2000
                     (request "5" "bad") server5)
              (JS.Fin 5) message5 "bad" nonce5
              (mkNonceData nonce5 (JS.Fin 5) 301000) Hid Hm Hsg Hn Hd)
    as [Hmatch _].
  destruct (Hmatch eq_refl) as [Hdel Hlater].
  split; [exact Hdel|].
  apply Hlater; [|vm_compute; reflexivity].
  repeat constructor; cbn; first [tauto | vm_compute; discriminate].
Defined.

Lemma toggle_ignores_signer_witness :
  (toggleHidden verifier 2000 (request "5" "sig-owner") server5).1
  = (toggleHidden verifier 2000 (request "5" "sig-other") server5).1
  ∧ toggleHidden verifier 2000 (request "5" "sig-owner") server5
    = (mkServer (delete nonce5 (nonceStore server5))
         (<[JS.Fin 5 := mkMetadata (JS.Fin 5) None None None None None (Some true)]>
            (storage server5)),
       mkResponse 200 (ToggleBody true true),
       [LogVerified (JS.Fin 5) "0xOwner"; LogHiddenChanged (JS.Fin 5) true]).
Proof.
  apply (toggle_ignores_signer verifier 2000 server5 "5" "5" nonce5 (JS.Fin 5)
           (mkNonceData nonce5 (JS.Fin 5) 301000)
           "sig-owner" "sig-other" "0xOwner" "0xOther");
    first [ vm_compute; reflexivity | vm_compute; congruence | vm_compute; lia
          | discriminate ].
Defined.

Lemma toggle_replaces_metadata_witness :
  ∃ eid, JS.parseInt10 (params_id (request "5" "sig-owner")) = Some eid
    ∧ storage (toggleHidden verifier 2000 (request "5" "sig-owner") server5).1.1
        !! eid
      = Some (mkMetadata eid None None None None None (Some true))
    ∧ true = negb (default false (storage server5 !! eid ≫= hidden))
    ∧ ∀ k, k ≠ eid →
        storage (toggleHidden verifier 2000 (request "5" "sig-owner") server5).1.1
          !! k
        = storage server5 !! k.
Proof.
  apply (toggle_replaces_metadata verifier 2000 (request "5" "sig-owner") server5
           _ true
           [LogVerified (JS.Fin 5) "0xOwner"; LogHiddenChanged (JS.Fin 5) true]).
  vm_compute. reflexivity.
Defined.

(** The description stored for election 5 does not survive the toggle. *)
Example toggle_drops_description :
  description <$> storage server5 !! JS.Fin 5 = Some (Some "Budget vote")
  ∧ description
      <$> storage (toggleHidden verifier 2000 (request "5" "sig-owner") server5).1.1
          !! JS.Fin 5
    = Some None.
Proof. vm_compute. done. Qed.

End GatewayProofs.

(** * Further properties of VaultVoteEnhanced *)

Module EnhancedExtra.

Import Enhanced Ledger Tally.
Import EnhancedProofs.

Lemma count_below_le f n : count_below f n ≤ n.
Proof. induction n as [|n IH]; simpl; [lia|]. destruct (f _); lia. Qed.

Lemma count_below_ext f g n :
  (∀ i, i < n → f (N.of_nat i) = g (N.of_nat i)) →
  count_below f n = count_below g n.
Proof.
  induction n as [|n IH]; intros H; simpl; [done|].
  rewrite IH, (H n) by (intros; try apply H; lia). done.
Qed.

Lemma count_below_all f n :
  count_below f n = n ↔ ∀ i, i < n → f (N.of_nat i) = true.
Proof.
  induction n as [|n IH]; simpl.
  - split; [intros _ i Hi; lia | done].
  - pose proof (count_below_le f n) as Hle.
    destruct (f (N.of_nat n)) eqn:Hf.
    + split.
      * intros H i Hi. destruct (decide (i = n)) as [->|]; [done|].
        apply IH; lia.
      * intros H. assert (count_below f n = n) as -> by (apply IH; auto with lia).
        lia.
    + split; [lia|]. intros H. rewrite H in Hf by lia. done.
Qed.

Lemma count_below_none f n :
  (∀ i, i < n → f (N.of_nat i) = false) → count_below f n = 0.
Proof.
  induction n as [|n IH]; intros H; simpl; [done|].
  rewrite IH, H by (intros; try apply H; lia). done.
Qed.

Lemma count_below_insert f n k :
  N.to_nat k < n → f k = false →
  count_below (<[k := true]> f) n = S (count_below f n).
Proof.
  induction n as [|n IH]; intros Hk Hf; simpl; [lia|].
  destruct (decide (N.to_nat k = n)) as [Heq|Hne].
  - assert (k = N.of_nat n) as -> by lia.
    rewrite fn_lookup_insert, Hf.
    rewrite (count_below_ext _ f n); [lia|].
    intros i Hi. rewrite fn_lookup_insert_ne by lia. done.
  - rewrite IH by (done || lia).
    rewrite fn_lookup_insert_ne by lia. lia.
Qed.

Section Oracle.
Context `{fhe : FHE.Oracle}.

(** What the initialisation loop writes: for the indices it visits, a
    cleared revealed flag and the handle the oracle ingested; nothing at the
    other indices. *)
Lemma createElection_loop_post n : ∀ i zi zp e log e' log',
  createElection_loop n i zi zp e log = Ok (e', log') →
  (∀ j, (i ≤ j < i + N.of_nat n)%N →
     choiceRevealed e' j = false
     ∧ ∃ z p, zi !! N.to_nat j = Some z ∧ zp !! N.to_nat j = Some p
              ∧ FHE.fromExternal z p = Some (encryptedVotesPerChoice e' j))
  ∧ (∀ j, ¬ (i ≤ j < i + N.of_nat n)%N →
       choiceRevealed e' j = choiceRevealed e j
       ∧ encryptedVotesPerChoice e' j = encryptedVotesPerChoice e j).
Proof.
  induction n as [|n IH]; intros i zi zp e log e' log' H;
    cbn [createElection_loop] in H.
  - simplify_eq. split; [intros j Hj; lia|done].
  - destruct (zi !! N.to_nat i) as [z|] eqn:Hz; [|done].
    destruct (zp !! N.to_nat i) as [p|] eqn:Hp; [|done].
    destruct (FHE.fromExternal z p) as [h|] eqn:Hh; [|done].
    apply IH in H as [Hin Hout]. split.
    + intros j Hj. destruct (decide (j = i)) as [->|Hne].
      * destruct (Hout i) as [-> ->]; [lia|]. simpl.
        rewrite !fn_lookup_insert. split; [done|]. by exists z, p.
      * apply Hin. lia.
    + intros j Hj. destruct (Hout j) as [-> ->]; [lia|]. simpl.
      rewrite !fn_lookup_insert_ne by lia. done.
Qed.

(** ** What each successful transaction does *)

Lemma createElection_ok sender t labels zi zp c id c' log :
  createElection sender t labels zi zp c = Ok (id, c', log) →
  sender = owner c ∧ id = electionCount c
  ∧ 2 ≤ length labels ∧ length zi = length labels ∧ length zp = length labels
  ∧ ∃ e' log0,
      createElection_loop (length labels) 0 zi zp
        (set_revealedChoiceCount 0
           (set_fullyRevealed false
              (set_state Created
                 (set_header t labels (N.of_nat (length labels))
                    (elections c id))))) [] = Ok (e', log0)
      ∧ c' = mkContract (owner c) (<[id := e']> (elections c)) (id + 1)
      ∧ log = log0 ++ [Emit (ElectionCreated id t labels)].
Proof.
  unfold createElection, incr. intros H.
  repeat case_match; simplify_eq.
  repeat match goal with
         | H : bool_decide _ = true |- _ => apply bool_decide_eq_true in H
         | H : (_ <? _)%nat = true |- _ => apply Nat.ltb_lt in H
         | H : (_ =? _)%nat = true |- _ => apply Nat.eqb_eq in H
         end.
  split_and!; [done|done|lia|done|done|]. eauto.
Qed.

Lemma openElection_ok sender id c c' log :
  openElection sender id c = Ok (tt, c', log) →
  sender = owner c ∧ state (elections c id) = Created
  ∧ c' = store id (set_state Open (elections c id)) c.
Proof.
  unfold openElection. intros H. repeat case_match; simplify_eq.
  rewrite state_eqb_true, bool_decide_eq_true in *. done.
Qed.

Lemma closeElection_ok sender id c c' log :
  closeElection sender id c = Ok (tt, c', log) →
  sender = owner c ∧ state (elections c id) = Open
  ∧ c' = store id (set_state Closed (elections c id)) c.
Proof.
  unfold closeElection. intros H. repeat case_match; simplify_eq.
  rewrite state_eqb_true, bool_decide_eq_true in *. done.
Qed.

Lemma castVote_ok sender id ch vi vp c c' log :
  castVote sender id ch vi vp c = Ok (tt, c', log) →
  state (elections c id) = Open ∧ hasVoted (elections c id) sender = false
  ∧ (ch < choiceCount (elections c id))%N
  ∧ ∃ vote, FHE.fromExternal vi vp = Some vote
      ∧ c' = store id
               (set_hasVoted sender true
                  (set_encryptedVotes ch
                     (FHE.add (encryptedVotesPerChoice (elections c id) ch) vote)
                     (set_userVotes sender vote (elections c id)))) c.
Proof.
  unfold castVote. intros H. repeat case_match; simplify_eq.
  rewrite state_eqb_true, negb_true_iff, N.ltb_lt in *.
  split_and!; [done|done|done|]. eauto.
Qed.

Lemma requestChoiceReveal_ok sender id ch c c' log :
  requestChoiceReveal sender id ch c = Ok (tt, c', log) →
  sender = owner c ∧ state (elections c id) = Closed
  ∧ (ch < choiceCount (elections c id))%N
  ∧ choiceRevealed (elections c id) ch = false
  ∧ let pub := FHE.makePubliclyDecryptable
                 (encryptedVotesPerChoice (elections c id) ch) in
    c' = store id
           (set_expectedHandles ch (FHE.toBytes32 pub)
              (set_encryptedVotes ch pub (elections c id))) c
    ∧ log = [Emit (ChoiceRevealRequested id ch (FHE.toBytes32 pub))].
Proof.
  unfold requestChoiceReveal. intros H. repeat case_match; simplify_eq.
  rewrite state_eqb_true, negb_true_iff, N.ltb_lt, bool_decide_eq_true in *.
  split_and!; try done.
  - simpl. by rewrite fn_lookup_insert.
  - simpl. by rewrite fn_lookup_insert.
Qed.

Lemma resolveChoiceCallback_ok id ch ct pf c c' log :
  resolveChoiceCallback id ch ct pf c = Ok (tt, c', log) →
  (id < electionCount c)%N ∧ state (elections c id) = Closed
  ∧ (ch < choiceCount (elections c id))%N
  ∧ choiceRevealed (elections c id) ch = false
  ∧ FHE.checkSignatures [expectedHandles (elections c id) ch] ct pf = true
  ∧ ∃ v, abi_decode_uint32 ct = Some v
      ∧ let e1 := set_revealedChoiceCount
                    (revealedChoiceCount (elections c id) + 1)
                    (set_choiceRevealed ch true
                       (set_revealedVotes ch v (elections c id))) in
        c' = store id
               (if (revealedChoiceCount (elections c id) + 1
                    =? choiceCount (elections c id))%N
                then set_fullyRevealed true (set_state Revealed e1) else e1) c.
Proof.
  unfold resolveChoiceCallback, incr. intros H.
  destruct (id <? electionCount c)%N eqn:H1; [|done].
  destruct (state_eqb (state (elections c id)) Closed) eqn:H2; [|done].
  destruct (ch <? choiceCount (elections c id))%N eqn:H3; [|done].
  destruct (choiceRevealed (elections c id) ch) eqn:H4; [done|].
  cbn [negb] in H.
  destruct (FHE.checkSignatures _ ct pf) eqn:H5; [|done]. cbn [negb] in H.
  destruct (abi_decode_uint32 ct) as [v|] eqn:H6; [|done].
  cbn in H. destruct (_ <? uint256_max)%N; [|done].
  apply N.ltb_lt in H1, H3. apply state_eqb_true in H2.
  split_and!; [done..|]. exists v. split; [done|]. cbn.
  destruct (_ =? _)%N; by simplify_eq.
Qed.

Lemma elections_store id id' e c :
  elections (store id e c) id'
  = if decide (id = id') then e else elections c id'.
Proof.
  unfold store; simpl. destruct (decide (id = id')) as [->|Hne].
  - apply fn_lookup_insert.
  - by apply fn_lookup_insert_ne.
Qed.

Lemma electionCount_store id e c : electionCount (store id e c) = electionCount c.
Proof. done. Qed.

Lemma well_formed_constructor d : well_formed (constructor d).
Proof.
  intros id. split; [simpl; lia|]. intros _. simpl. by repeat split.
Qed.

Lemma well_formed_open c id :
  well_formed c → state (elections c id) = Created →
  well_formed (store id (set_state Open (elections c id)) c).
Proof.
  intros Hwf Hst id'. rewrite elections_store, electionCount_store.
  destruct (Hwf id') as [Hc Hu]. case_decide as Heq; [subst id'|done].
  split.
  - intros Hlt. destruct (Hc Hlt) as (H1 & H2 & H3 & H4 & H5 & H6 & H7).
    rewrite Hst in *. simpl in *.
    split_and!; try done.
    + split; [|done]. intros Hf. apply H4 in Hf. done.
    + split; [done|]. intros Hr. apply H5 in Hr. done.
    + intros i _. apply H6. lia.
  - intros Hge. destruct (Hu Hge) as [Hun Hnr]. split; [|done].
    unfold untouched in *. simpl. done.
Qed.

Lemma well_formed_close c id :
  well_formed c → state (elections c id) = Open →
  well_formed (store id (set_state Closed (elections c id)) c).
Proof.
  intros Hwf Hst id'. rewrite elections_store, electionCount_store.
  destruct (Hwf id') as [Hc Hu]. case_decide as Heq; [subst id'|done].
  split.
  - intros Hlt. destruct (Hc Hlt) as (H1 & H2 & H3 & H4 & H5 & H6 & H7).
    rewrite Hst in *. simpl in *.
    split_and!; try done.
    + split; [|done]. intros Hf. apply H4 in Hf. done.
    + split; [done|]. intros Hr. apply H5 in Hr. done.
    + intros i Hi. lia.
  - intros Hge. destruct (Hu Hge) as [Hun Hnr]. split; [|done].
    unfold untouched in *. simpl. done.
Qed.

(** Votes and reveal requests need a valid choice, so they only reach
    created elections. *)
Lemma well_formed_created c id ch :
  well_formed c → (ch < choiceCount (elections c id))%N →
  (id < electionCount c)%N.
Proof.
  intros Hwf Hch. destruct (decide (id < electionCount c)%N) as [|Hge]; [done|].
  destruct (Hwf id) as [_ Hu]. destruct Hu as [(_ & _ & Hcc & _) _]; [lia|].
  rewrite Hcc in Hch. lia.
Qed.

Lemma well_formed_castVote c id ch sender vote sum :
  well_formed c → state (elections c id) = Open →
  (ch < choiceCount (elections c id))%N →
  well_formed
    (store id (set_hasVoted sender true
                 (set_encryptedVotes ch sum
                    (set_userVotes sender vote (elections c id)))) c).
Proof.
  intros Hwf Hst Hch id'. rewrite elections_store, electionCount_store.
  pose proof (well_formed_created c id ch Hwf Hch) as Hid.
  destruct (Hwf id') as [Hc Hu]. case_decide as Heq; [subst id'|done].
  split; [|lia]. intros _. destruct (Hc Hid) as (H1 & H2 & H3 & H4 & H5 & H6 & H7).
  simpl. done.
Qed.

Lemma well_formed_request c id ch pub handle :
  well_formed c → state (elections c id) = Closed →
  (ch < choiceCount (elections c id))%N →
  well_formed
    (store id (set_expectedHandles ch handle
                 (set_encryptedVotes ch pub (elections c id))) c).
Proof.
  intros Hwf Hst Hch id'. rewrite elections_store, electionCount_store.
  pose proof (well_formed_created c id ch Hwf Hch) as Hid.
  destruct (Hwf id') as [Hc Hu]. case_decide as Heq; [subst id'|done].
  split; [|lia]. intros _. destruct (Hc Hid) as (H1 & H2 & H3 & H4 & H5 & H6 & H7).
  simpl. split_and!; try done.
  intros i Hi. rewrite Hst in Hi. simpl in Hi. lia.
Qed.

Lemma well_formed_resolve c id ch v :
  well_formed c → (id < electionCount c)%N →
  state (elections c id) = Closed →
  (ch < choiceCount (elections c id))%N →
  choiceRevealed (elections c id) ch = false →
  let e1 := set_revealedChoiceCount (revealedChoiceCount (elections c id) + 1)
              (set_choiceRevealed ch true
                 (set_revealedVotes ch v (elections c id))) in
  well_formed
    (store id
       (if (revealedChoiceCount (elections c id) + 1
            =? choiceCount (elections c id))%N
        then set_fullyRevealed true (set_state Revealed e1) else e1) c).
Proof.
  intros Hwf Hid Hst Hch Hnot e1 id'.
  rewrite elections_store, electionCount_store.
  destruct (Hwf id') as [Hc Hu]. case_decide as Heq; [subst id'|done].
  split; [|lia]. intros _.
  destruct (Hc Hid) as (H1 & H2 & H3 & H4 & H5 & H6 & H7).
  assert (Hcount : revealedChoices e1 = S (revealedChoices (elections c id))).
  { unfold revealedChoices, e1. simpl. apply count_below_insert; [lia|done]. }
  assert (Hcc : choiceCount e1 = choiceCount (elections c id)) by done.
  assert (Hle : revealedChoices (elections c id)
                ≤ N.to_nat (choiceCount (elections c id))).
  { apply count_below_le. }
  assert (Hout : ∀ i, (choiceCount (elections c id) ≤ i)%N →
                      choiceRevealed e1 i = false).
  { intros i Hi. unfold e1; simpl. rewrite fn_lookup_insert_ne by lia. auto. }
  destruct (_ =? _)%N eqn:Hfull;
    [apply N.eqb_eq in Hfull | apply N.eqb_neq in Hfull].
  - change (revealedChoices (set_fullyRevealed true (set_state Revealed e1)))
      with (revealedChoices e1).
    simpl. rewrite Hcount.
    split_and!; try done; try lia.
    split; [intros _; lia|done].
  - subst e1. simpl in *. unfold revealedChoices in *. simpl in *.
    rewrite Hcount, Hst. split_and!; try done; try lia.
    + split; [|done]. intros Hf. apply H4 in Hf. by rewrite Hst in Hf.
    + split; [done|]. intros Heq. lia.
    + simpl. intros i Hi. lia.
Qed.

Lemma well_formed_create c sender t labels zi zp id c' log :
  well_formed c →
  createElection sender t labels zi zp c = Ok (id, c', log) →
  well_formed c'.
Proof.
  intros Hwf H. apply createElection_ok in H
    as (_ & -> & Hlen & Hzi & Hzp & e' & log0 & Hloop & -> & _).
  pose proof (createElection_loop_frame _ _ _ _ _ _ _ _ Hloop)
    as (F1 & F2 & F3 & F4 & F5 & F6 & F7 & F8 & F9 & F10).
  apply createElection_loop_post in Hloop as [Hin Hout].
  simpl in F1, F2, F3, F4, F5, F6, F7, F8, F9, F10.
  destruct (Hwf (electionCount c)) as [_ Hu].
  destruct Hu as [(U1 & U2 & U3 & U4 & U5 & U6 & U7) _]; [lia|].
  assert (Hrev : ∀ i, choiceRevealed e' i = false).
  { intros i. destruct (decide (i < N.of_nat (length labels))%N) as [Hi|Hi].
    - apply Hin. lia.
    - destruct (Hout i) as [-> _]; [lia|]. simpl. apply U6. }
  intros id. simpl.
  destruct (decide (electionCount c = id)) as [<-|Hne].
  - rewrite fn_lookup_insert. split; [|lia]. intros _.
    unfold revealedChoices. rewrite (count_below_none _ _ (λ i _, Hrev _)).
    rewrite F2, F3, F4, F8, F9, F10. simpl.
    split_and!; try done.
    + split; [done|]. intros Heq. lia.
    + intros i _. split; [done|]. apply U6.
  - rewrite fn_lookup_insert_ne by done. destruct (Hwf id) as [Hc Hu].
    split; [intros Hlt; apply Hc; lia | intros Hge; apply Hu; lia].
Qed.

Lemma step_well_formed c tx : well_formed c → well_formed (step c tx).
Proof.
  intros Hwf. destruct tx as [sender call]. unfold step, exec; simpl.
  destruct call.
  - destruct (createElection _ _ _ _ _ _) as [[[? c'] ?]|] eqn:H; [|done].
    by eapply well_formed_create.
  - destruct (openElection _ _ _) as [[[[] c'] ?]|] eqn:H; [|done].
    apply openElection_ok in H as (_ & Hst & ->). by apply well_formed_open.
  - destruct (closeElection _ _ _) as [[[[] c'] ?]|] eqn:H; [|done].
    apply closeElection_ok in H as (_ & Hst & ->). by apply well_formed_close.
  - destruct (castVote _ _ _ _ _ _) as [[[[] c'] ?]|] eqn:H; [|done].
    apply castVote_ok in H as (Hst & _ & Hch & vote & _ & ->).
    by apply well_formed_castVote.
  - destruct (requestChoiceReveal _ _ _ _) as [[[[] c'] ?]|] eqn:H; [|done].
    apply requestChoiceReveal_ok in H as (_ & Hst & Hch & _ & -> & _).
    by apply well_formed_request.
  - destruct (resolveChoiceCallback _ _ _ _ _) as [[[[] c'] ?]|] eqn:H; [|done].
    apply resolveChoiceCallback_ok in H
      as (Hid & Hst & Hch & Hnot & _ & v & _ & ->).
    by apply well_formed_resolve.
Qed.

Lemma reachable_well_formed c : reachable c → well_formed c.
Proof.
  intros (d & txs & ->).
  generalize (well_formed_constructor d). generalize (constructor d).
  induction txs as [|tx txs IH]; intros c Hwf; [done|].
  apply IH. by apply step_well_formed.
Qed.

(** X1: a successful [createElection] returns the previous election count
    as the id and raises the count by one; the new election is Created with
    the given title and labels, as many choices as labels, nothing revealed,
    and each choice's counter is the handle the oracle ingested from the
    zero input and proof of that index; the owner and every other election
    are unchanged. *)
Theorem createElection_sequential_ids sender t labels zi zp c id c' log :
  createElection sender t labels zi zp c = Ok (id, c', log) →
  id = electionCount c ∧ electionCount c' = (id + 1)%N ∧ owner c' = owner c
  ∧ state (elections c' id) = Created
  ∧ title (elections c' id) = t
  ∧ choiceLabels (elections c' id) = labels
  ∧ choiceCount (elections c' id) = N.of_nat (length labels)
  ∧ fullyRevealed (elections c' id) = false
  ∧ revealedChoiceCount (elections c' id) = 0%N
  ∧ (∀ i, (i < N.of_nat (length labels))%N →
       choiceRevealed (elections c' id) i = false
       ∧ ∃ z p, zi !! N.to_nat i = Some z ∧ zp !! N.to_nat i = Some p
           ∧ FHE.fromExternal z p
             = Some (encryptedVotesPerChoice (elections c' id) i))
  ∧ (∀ id', id' ≠ id → elections c' id' = elections c id').
Proof.
  intros H. apply createElection_ok in H
    as (_ & -> & Hlen & Hzi & Hzp & e' & log0 & Hloop & -> & _).
  pose proof (createElection_loop_frame _ _ _ _ _ _ _ _ Hloop)
    as (F1 & F2 & F3 & F4 & F5 & F6 & F7 & F8 & F9 & F10).
  apply createElection_loop_post in Hloop as [Hin Hout].
  simpl in *. rewrite fn_lookup_insert.
  split_and!; try done.
  - intros i Hi. apply Hin. lia.
  - intros id' Hne. by rewrite fn_lookup_insert_ne.
Qed.

(** X2: the owner is fixed by the constructor for good, and a sender other
    than the owner cannot create, open or close an election nor request a
    reveal: each of these calls reverts with "only owner". *)
Theorem owner_fixed_and_required c :
  (∀ txs, owner (run txs c) = owner c)
  ∧ (∀ sender call, sender ≠ owner c →
       match call with
       | CastVote _ _ _ _ | ResolveChoiceCallback _ _ _ _ => True
       | _ => exec sender call c = Revert (Require "only owner")
       end).
Proof.
  split.
  - intros txs. revert c. induction txs as [|tx txs IH]; intros c; [done|].
    change (run (tx :: txs) c) with (run txs (step c tx)). rewrite IH.
    destruct tx as [sender call]. unfold step, exec; simpl.
    destruct call.
    + destruct (createElection _ _ _ _ _ _) as [[[? c'] ?]|] eqn:H; [|done].
      by apply createElection_ok in H as (_ & _ & _ & _ & _ & ? & ? & _ & -> & _).
    + destruct (openElection _ _ _) as [[[[] c'] ?]|] eqn:H; [|done].
      by apply openElection_ok in H as (_ & _ & ->).
    + destruct (closeElection _ _ _) as [[[[] c'] ?]|] eqn:H; [|done].
      by apply closeElection_ok in H as (_ & _ & ->).
    + destruct (castVote _ _ _ _ _ _) as [[[[] c'] ?]|] eqn:H; [|done].
      by apply castVote_ok in H as (_ & _ & _ & ? & _ & ->).
    + destruct (requestChoiceReveal _ _ _ _) as [[[[] c'] ?]|] eqn:H; [|done].
      by apply requestChoiceReveal_ok in H as (_ & _ & _ & _ & -> & _).
    + destruct (resolveChoiceCallback _ _ _ _ _) as [[[[] c'] ?]|] eqn:H; [|done].
      by apply resolveChoiceCallback_ok in H as (_ & _ & _ & _ & _ & ? & _ & ->).
  - intros sender call Hne. destruct call; try done; simpl;
      unfold createElection, openElection, closeElection, requestChoiceReveal;
      by rewrite bool_decide_eq_false_2.
Qed.

(** What one transaction does to an existing election that is Closed or
    Revealed: the voters and their stored votes stay, and each counter
    stays or is replaced by its publicly decryptable form. *)
Lemma step_after_close c tx id :
  (id < electionCount c)%N → 2 ≤ rank (state (elections c id)) →
  (id < electionCount (step c tx))%N
  ∧ 2 ≤ rank (state (elections (step c tx) id))
  ∧ hasVoted (elections (step c tx) id) = hasVoted (elections c id)
  ∧ userVotes (elections (step c tx) id) = userVotes (elections c id)
  ∧ ((∀ h, FHE.makePubliclyDecryptable h = h) →
     ∀ ch, encryptedVotesPerChoice (elections (step c tx) id) ch
           = encryptedVotesPerChoice (elections c id) ch).
Proof.
  intros Hid Hrk. destruct tx as [sender call]. unfold step, exec; simpl.
  destruct call.
  - destruct (createElection _ _ _ _ _ _) as [[[? c'] ?]|] eqn:H; [|done].
    apply createElection_ok in H as (_ & -> & _ & _ & _ & ? & ? & _ & -> & _).
    simpl. rewrite fn_lookup_insert_ne by lia. split_and!; [lia|done..].
  - destruct (openElection _ _ _) as [[[[] c'] ?]|] eqn:H; [|done].
    apply openElection_ok in H as (_ & Hst & ->).
    rewrite elections_store, electionCount_store. case_decide; [subst|done].
    rewrite Hst in Hrk. simpl in Hrk. lia.
  - destruct (closeElection _ _ _) as [[[[] c'] ?]|] eqn:H; [|done].
    apply closeElection_ok in H as (_ & Hst & ->).
    rewrite elections_store, electionCount_store. case_decide; [subst|done].
    rewrite Hst in Hrk. simpl in Hrk. lia.
  - destruct (castVote _ _ _ _ _ _) as [[[[] c'] ?]|] eqn:H; [|done].
    apply castVote_ok in H as (Hst & _ & _ & ? & _ & ->).
    rewrite elections_store, electionCount_store. case_decide; [subst|done].
    rewrite Hst in Hrk. simpl in Hrk. lia.
  - destruct (requestChoiceReveal _ _ _ _) as [[[[] c'] ?]|] eqn:H; [|done].
    apply requestChoiceReveal_ok in H as (_ & Hst & _ & _ & -> & _).
    rewrite elections_store, electionCount_store. case_decide; [subst|done].
    simpl. split_and!; try done. intros Hmpd ch.
    destruct (decide (choiceIndex = ch)) as [->|Hne].
    + by rewrite fn_lookup_insert, Hmpd.
    + by rewrite fn_lookup_insert_ne.
  - destruct (resolveChoiceCallback _ _ _ _ _) as [[[[] c'] ?]|] eqn:H; [|done].
    apply resolveChoiceCallback_ok in H as (_ & Hst & _ & _ & _ & v & _ & ->).
    rewrite elections_store, electionCount_store. case_decide; [subst|done].
    destruct (_ =? _)%N; simpl; rewrite ?Hst; simpl; split_and!; done || lia.
Qed.

(** X3: once an existing election is Closed, no transaction adds a voter or
    changes a stored vote, and the encrypted counters no longer change when
    [makePubliclyDecryptable] returns the handle it is given: the tally that
    is revealed is the tally at closing time. *)
Theorem closed_election_frozen c id txs :
  (id < electionCount c)%N → 2 ≤ rank (state (elections c id)) →
  (∀ a, hasVoted (elections (run txs c) id) a = hasVoted (elections c id) a)
  ∧ (∀ a, userVotes (elections (run txs c) id) a = userVotes (elections c id) a)
  ∧ ((∀ h, FHE.makePubliclyDecryptable h = h) →
     ∀ ch, encryptedVotesPerChoice (elections (run txs c) id) ch
           = encryptedVotesPerChoice (elections c id) ch).
Proof.
  revert c. induction txs as [|tx txs IH]; intros c Hid Hrk; [done|].
  change (run (tx :: txs) c) with (run txs (step c tx)).
  destruct (step_after_close c tx id Hid Hrk) as (Hid' & Hrk' & Hv & Hu & He).
  destruct (IH _ Hid' Hrk') as (IHv & IHu & IHe).
  split_and!.
  - intros a. by rewrite IHv, Hv.
  - intros a. by rewrite IHu, Hu.
  - intros Hmpd ch. by rewrite IHe, He.
Qed.

(** X4: in every reachable storage, for every existing election, the
    counter of revealed choices is the number of choices whose revealed flag
    is set, the election is Revealed exactly when all its choices are
    revealed, and [fullyRevealed] is set exactly when the state is
    Revealed. *)
Theorem revealed_iff_all_choices c id :
  reachable c → (id < electionCount c)%N →
  revealedChoiceCount (elections c id) = N.of_nat (revealedChoices (elections c id))
  ∧ (fullyRevealed (elections c id) = true ↔ state (elections c id) = Revealed)
  ∧ (state (elections c id) = Revealed
     ↔ ∀ i, (i < choiceCount (elections c id))%N →
            choiceRevealed (elections c id) i = true).
Proof.
  intros Hr Hid. apply reachable_well_formed in Hr.
  destruct (Hr id) as [Hc _]. destruct (Hc Hid) as (_ & _ & H3 & H4 & H5 & _).
  split_and!; [done|done|]. rewrite H5. unfold revealedChoices.
  rewrite count_below_all. split.
  - intros H i Hi. specialize (H (N.to_nat i)). rewrite N2Nat.id in H.
    apply H. lia.
  - intros H i Hi. apply H. lia.
Qed.

(** X5: in every reachable storage an existing election has at least two
    labels, its choice count is the number of labels and [getRevealedResults]
    returns one entry per label; a slot that was never created has no
    label, no choice, no voter, no counter and no revealed value. *)
Theorem labels_match_count c id :
  reachable c →
  ((id < electionCount c)%N →
     2 ≤ length (choiceLabels (elections c id))
     ∧ choiceCount (elections c id) = N.of_nat (length (choiceLabels (elections c id)))
     ∧ length (getRevealedResults id c) = length (choiceLabels (elections c id)))
  ∧ ((electionCount c ≤ id)%N → untouched (elections c id)).
Proof.
  intros Hr. apply reachable_well_formed in Hr. destruct (Hr id) as [Hc Hu].
  split.
  - intros Hid. destruct (Hc Hid) as (H1 & H2 & _).
    split_and!; [done|done|]. unfold getRevealedResults.
    rewrite length_map, length_seq, H1. lia.
  - intros Hge. by apply Hu.
Qed.

(** X6: on an id that was never created, votes, reveal requests, reveal
    resolutions and [getWinner] all revert, in every reachable storage. *)
Theorem nonexistent_election_rejects c id :
  reachable c → (electionCount c ≤ id)%N →
  (∀ sender ch vi vp, succeeds (castVote sender id ch vi vp c) = false)
  ∧ (∀ sender ch, succeeds (requestChoiceReveal sender id ch c) = false)
  ∧ (∀ ch ct pf, resolveChoiceCallback id ch ct pf c
                 = Revert (Require "invalid election"))
  ∧ getWinner id c = Revert (Require "not fully revealed").
Proof.
  intros Hr Hge. apply reachable_well_formed in Hr. destruct (Hr id) as [_ Hu].
  destruct (Hu Hge) as [(_ & _ & Hcc & Hfull & _) _].
  assert (Hno : ∀ ch, (ch <? choiceCount (elections c id))%N = false).
  { intros ch. apply N.ltb_ge. rewrite Hcc. lia. }
  split_and!.
  - intros sender ch vi vp. unfold castVote. rewrite Hno.
    by repeat case_match.
  - intros sender ch. unfold requestChoiceReveal. rewrite Hno.
    by repeat case_match.
  - intros ch ct pf. unfold resolveChoiceCallback.
    by rewrite (proj2 (N.ltb_ge _ _) Hge).
  - unfold getWinner. by rewrite Hfull.
Qed.

End Oracle.

Import Fixture.

Lemma createElection_sequential_ids_witness :
  0%N = electionCount (constructor deployer)
  ∧ electionCount createdPoll = (0 + 1)%N
  ∧ owner createdPoll = owner (constructor deployer)
  ∧ state (elections createdPoll 0%N) = Created
  ∧ title (elections createdPoll 0%N) = "Poll"
  ∧ choiceLabels (elections createdPoll 0%N) = ["Yes"; "No"]
  ∧ choiceCount (elections createdPoll 0%N) = N.of_nat (length ["Yes"; "No"])
  ∧ fullyRevealed (elections createdPoll 0%N) = false
  ∧ revealedChoiceCount (elections createdPoll 0%N) = 0%N
  ∧ (∀ i, (i < N.of_nat (length ["Yes"; "No"]))%N →
       choiceRevealed (elections createdPoll 0%N) i = false
       ∧ ∃ z p, [0%N; 0%N] !! N.to_nat i = Some z
           ∧ [proof; proof] !! N.to_nat i = Some p
           ∧ FHE.fromExternal (Oracle := plainOracle) z p
             = Some (encryptedVotesPerChoice (elections createdPoll 0%N) i))
  ∧ (∀ id', id' ≠ 0%N →
       elections createdPoll id' = elections (constructor deployer) id').
Proof.
  apply (createElection_sequential_ids (fhe := plainOracle) deployer "Poll"
           ["Yes"; "No"] [0%N; 0%N] [proof; proof] (constructor deployer)
           0%N createdPoll
           [AllowThis 0; AllowThis 0;
            Emit (ElectionCreated 0 "Poll" ["Yes"; "No"])]).
  vm_compute. reflexivity.
Defined.

Lemma owner_fixed_and_required_witness :
  owner (run (fhe := plainOracle) (voting ++ reveal 0) createdPoll)
  = owner createdPoll
  ∧ exec (fhe := plainOracle) alice (CloseElection 0) openPoll
    = Revert (Require "only owner").
Proof.
  split.
  - apply (proj1 (owner_fixed_and_required (fhe := plainOracle) createdPoll)).
  - apply (proj2 (owner_fixed_and_required (fhe := plainOracle) openPoll)
             alice (CloseElection 0)).
    vm_compute. discriminate.
Defined.

Lemma closed_election_frozen_witness :
  (∀ a, hasVoted (elections (run (fhe := plainOracle) (reveal 0) closedPoll) 0%N) a
        = hasVoted (elections closedPoll 0%N) a)
  ∧ (∀ a, userVotes (elections (run (fhe := plainOracle) (reveal 0) closedPoll) 0%N) a
          = userVotes (elections closedPoll 0%N) a)
  ∧ ((∀ h, FHE.makePubliclyDecryptable (Oracle := plainOracle) h = h) →
     ∀ ch, encryptedVotesPerChoice
             (elections (run (fhe := plainOracle) (reveal 0) closedPoll) 0%N) ch
           = encryptedVotesPerChoice (elections closedPoll 0%N) ch).
Proof.
  apply (closed_election_frozen (fhe := plainOracle) closedPoll 0%N (reveal 0)).
  - vm_compute. reflexivity.
  - vm_compute. lia.
Defined.

Lemma reachable_revealedPoll : reachable (fhe := plainOracle) revealedPoll.
Proof.
  unfold revealedPoll, closedPoll, createdPoll.
  do 3 apply reachable_run. apply reachable_constructor.
Qed.

Lemma revealed_iff_all_choices_witness :
  revealedChoiceCount (elections revealedPoll 0%N)
  = N.of_nat (revealedChoices (elections revealedPoll 0%N))
  ∧ (fullyRevealed (elections revealedPoll 0%N) = true
     ↔ state (elections revealedPoll 0%N) = Revealed)
  ∧ (state (elections revealedPoll 0%N) = Revealed
     ↔ ∀ i, (i < choiceCount (elections revealedPoll 0%N))%N →
            choiceRevealed (elections revealedPoll 0%N) i = true).
Proof.
  apply (revealed_iff_all_choices (fhe := plainOracle) revealedPoll 0%N).
  - apply reachable_revealedPoll.
  - vm_compute. reflexivity.
Defined.

Lemma labels_match_count_witness :
  ((0 < electionCount revealedPoll)%N →
     2 ≤ length (choiceLabels (elections revealedPoll 0%N))
     ∧ choiceCount (elections revealedPoll 0%N)
       = N.of_nat (length (choiceLabels (elections revealedPoll 0%N)))
     ∧ length (getRevealedResults 0 revealedPoll)
       = length (choiceLabels (elections revealedPoll 0%N)))
  ∧ ((electionCount revealedPoll ≤ 0)%N → untouched (elections revealedPoll 0%N)).
Proof.
  apply (labels_match_count (fhe := plainOracle) revealedPoll 0%N).
  apply reachable_revealedPoll.
Defined.

Lemma nonexistent_election_rejects_witness :
  (∀ sender ch vi vp,
     succeeds (castVote (fhe := plainOracle) sender 7 ch vi vp revealedPoll) = false)
  ∧ (∀ sender ch,
       succeeds (requestChoiceReveal (fhe := plainOracle) sender 7 ch revealedPoll)
       = false)
  ∧ (∀ ch ct pf, resolveChoiceCallback (fhe := plainOracle) 7 ch ct pf revealedPoll
                 = Revert (Require "invalid election"))
  ∧ getWinner 7 revealedPoll = Revert (Require "not fully revealed").
Proof.
  apply (nonexistent_election_rejects (fhe := plainOracle) revealedPoll 7%N).
  - apply reachable_revealedPoll.
  - vm_compute. discriminate.
Defined.

Section Finality.
Context `{fhe : FHE.Oracle}.

Lemma step_revealed c tx id :
  (id < electionCount c)%N → state (elections c id) = Revealed →
  (id < electionCount (step c tx))%N
  ∧ elections (step c tx) id = elections c id.
Proof.
  intros Hid Hst. destruct tx as [sender call]. unfold step, exec; simpl.
  destruct call.
  - destruct (createElection _ _ _ _ _ _) as [[[? c'] ?]|] eqn:H; [|done].
    apply createElection_ok in H as (_ & -> & _ & _ & _ & ? & ? & _ & -> & _).
    simpl. rewrite fn_lookup_insert_ne by lia. split; [lia|done].
  - destruct (openElection _ _ _) as [[[[] c'] ?]|] eqn:H; [|done].
    apply openElection_ok in H as (_ & Hst' & ->).
    rewrite elections_store, electionCount_store. case_decide; [subst|done].
    congruence.
  - destruct (closeElection _ _ _) as [[[[] c'] ?]|] eqn:H; [|done].
    apply closeElection_ok in H as (_ & Hst' & ->).
    rewrite elections_store, electionCount_store. case_decide; [subst|done].
    congruence.
  - destruct (castVote _ _ _ _ _ _) as [[[[] c'] ?]|] eqn:H; [|done].
    apply castVote_ok in H as (Hst' & _ & _ & ? & _ & ->).
    rewrite elections_store, electionCount_store. case_decide; [subst|done].
    congruence.
  - destruct (requestChoiceReveal _ _ _ _) as [[[[] c'] ?]|] eqn:H; [|done].
    apply requestChoiceReveal_ok in H as (_ & Hst' & _ & _ & -> & _).
    rewrite elections_store, electionCount_store. case_decide; [subst|done].
    congruence.
  - destruct (resolveChoiceCallback _ _ _ _ _) as [[[[] c'] ?]|] eqn:H; [|done].
    apply resolveChoiceCallback_ok in H as (_ & Hst' & _ & _ & _ & v & _ & ->).
    rewrite elections_store, electionCount_store. case_decide; [subst|done].
    congruence.
Qed.

(** X7: a Revealed election is final: no sequence of transactions changes
    any of its fields (title, labels, counters, revealed counts, voters). *)
Theorem revealed_election_immutable c id txs :
  (id < electionCount c)%N → state (elections c id) = Revealed →
  elections (run txs c) id = elections c id.
Proof.
  revert c. induction txs as [|tx txs IH]; intros c Hid Hst; [done|].
  change (run (tx :: txs) c) with (run txs (step c tx)).
  destruct (step_revealed c tx id Hid Hst) as [Hid' Heq].
  rewrite IH; [done|done|]. by rewrite Heq.
Qed.

Lemma step_revealed_value c tx id ch :
  (id < electionCount c)%N → choiceRevealed (elections c id) ch = true →
  revealedVotesPerChoice (elections (step c tx) id) ch
  = revealedVotesPerChoice (elections c id) ch.
Proof.
  intros Hid Hrev. destruct tx as [sender call]. unfold step, exec; simpl.
  destruct call.
  - destruct (createElection _ _ _ _ _ _) as [[[? c'] ?]|] eqn:H; [|done].
    apply createElection_ok in H as (_ & -> & _ & _ & _ & ? & ? & _ & -> & _).
    simpl. by rewrite fn_lookup_insert_ne by lia.
  - destruct (openElection _ _ _) as [[[[] c'] ?]|] eqn:H; [|done].
    apply openElection_ok in H as (_ & _ & ->).
    rewrite elections_store. by case_decide; subst.
  - destruct (closeElection _ _ _) as [[[[] c'] ?]|] eqn:H; [|done].
    apply closeElection_ok in H as (_ & _ & ->).
    rewrite elections_store. by case_decide; subst.
  - destruct (castVote _ _ _ _ _ _) as [[[[] c'] ?]|] eqn:H; [|done].
    apply castVote_ok in H as (_ & _ & _ & ? & _ & ->).
    rewrite elections_store. by case_decide; subst.
  - destruct (requestChoiceReveal _ _ _ _) as [[[[] c'] ?]|] eqn:H; [|done].
    apply requestChoiceReveal_ok in H as (_ & _ & _ & _ & -> & _).
    rewrite elections_store. by case_decide; subst.
  - destruct (resolveChoiceCallback _ _ _ _ _) as [[[[] c'] ?]|] eqn:H; [|done].
    apply resolveChoiceCallback_ok in H as (_ & _ & _ & Hnot & _ & v & _ & ->).
    rewrite elections_store. case_decide; [subst|done].
    assert (choiceIndex ≠ ch) by congruence.
    destruct (_ =? _)%N; simpl; by rewrite fn_lookup_insert_ne.
Qed.

(** X8: the revealed count of a choice is written once: after the choice of
    an existing election is marked revealed, no sequence of transactions
    changes its revealed count or clears the mark. *)
Theorem revealed_count_final c id ch txs :
  (id < electionCount c)%N → choiceRevealed (elections c id) ch = true →
  choiceRevealed (elections (run txs c) id) ch = true
  ∧ revealedVotesPerChoice (elections (run txs c) id) ch
    = revealedVotesPerChoice (elections c id) ch.
Proof.
  revert c. induction txs as [|tx txs IH]; intros c Hid Hrev; [done|].
  change (run (tx :: txs) c) with (run txs (step c tx)).
  destruct (step_created c tx id Hid) as (Hid' & _ & _ & Hkeep).
  destruct (IH _ Hid' (Hkeep _ Hrev)) as [IH1 IH2].
  split; [done|]. rewrite IH2. by apply step_revealed_value.
Qed.

Lemma step_userVotes c tx id a :
  hasVoted (elections c id) a = true →
  userVotes (elections (step c tx) id) a = userVotes (elections c id) a.
Proof.
  intros Hv. destruct tx as [sender call]. unfold step, exec; simpl.
  destruct call.
  - destruct (createElection _ _ _ _ _ _) as [[[? c'] ?]|] eqn:H; [|done].
    apply createElection_ok in H as (_ & -> & _ & _ & _ & e' & ? & Hloop & -> & _).
    apply createElection_loop_frame in Hloop
      as (_ & _ & _ & _ & _ & Hu & _).
    simpl. destruct (decide (electionCount c = id)) as [<-|Hne].
    + rewrite fn_lookup_insert, Hu. done.
    + by rewrite fn_lookup_insert_ne.
  - destruct (openElection _ _ _) as [[[[] c'] ?]|] eqn:H; [|done].
    apply openElection_ok in H as (_ & _ & ->).
    rewrite elections_store. by case_decide; subst.
  - destruct (closeElection _ _ _) as [[[[] c'] ?]|] eqn:H; [|done].
    apply closeElection_ok in H as (_ & _ & ->).
    rewrite elections_store. by case_decide; subst.
  - destruct (castVote _ _ _ _ _ _) as [[[[] c'] ?]|] eqn:H; [|done].
    apply castVote_ok in H as (_ & Hnv & _ & ? & _ & ->).
    rewrite elections_store. case_decide; [subst|done]. simpl.
    assert (sender ≠ a) by congruence. by rewrite fn_lookup_insert_ne.
  - destruct (requestChoiceReveal _ _ _ _) as [[[[] c'] ?]|] eqn:H; [|done].
    apply requestChoiceReveal_ok in H as (_ & _ & _ & _ & -> & _).
    rewrite elections_store. by case_decide; subst.
  - destruct (resolveChoiceCallback _ _ _ _ _) as [[[[] c'] ?]|] eqn:H; [|done].
    apply resolveChoiceCallback_ok in H as (_ & _ & _ & _ & _ & v & _ & ->).
    rewrite elections_store. case_decide; [subst|done].
    by destruct (_ =? _)%N.
Qed.

(** X9: a voter can always read back their own encrypted vote: after an
    accepted [castVote], [getMyEncryptedVote] returns the handle the oracle
    ingested from that vote, after every later sequence of transactions;
    for an address that has not voted it reverts with "you haven't voted". *)
Theorem my_vote_round_trip c voter id ch vi vp vote c' log txs :
  FHE.fromExternal vi vp = Some vote →
  castVote voter id ch vi vp c = Ok (tt, c', log) →
  getMyEncryptedVote voter id c = Revert (Require "you haven't voted")
  ∧ getMyEncryptedVote voter id (run txs c') = Ok vote.
Proof.
  intros Hin H. apply castVote_ok in H as (_ & Hnv & _ & vote' & Hin' & ->).
  assert (vote' = vote) as -> by congruence.
  split; [unfold getMyEncryptedVote; by rewrite Hnv|].
  set (c1 := store _ _ c).
  assert (H1 : hasVoted (elections c1 id) voter = true
               ∧ userVotes (elections c1 id) voter = vote).
  { unfold c1. rewrite elections_store. case_decide; [|done]. simpl.
    by rewrite !fn_lookup_insert. }
  clearbody c1. revert c1 H1.
  induction txs as [|tx txs IH]; intros c1 [Hv Hu].
  - unfold getMyEncryptedVote. simpl. by rewrite Hv, Hu.
  - change (run (tx :: txs) c1) with (run txs (step c1 tx)).
    apply IH. split; [by apply step_hasVoted|].
    by rewrite step_userVotes.
Qed.

(** X10: in every reachable storage [getWinner] answers exactly for the
    existing elections that are Revealed, and reverts with "not fully
    revealed" for every other id. *)
Theorem getWinner_iff_revealed c id :
  reachable c →
  (succeeds (getWinner id c) = true
   ↔ (id < electionCount c)%N ∧ state (elections c id) = Revealed)
  ∧ (succeeds (getWinner id c) = false →
     getWinner id c = Revert (Require "not fully revealed")).
Proof.
  intros Hr. apply reachable_well_formed in Hr. destruct (Hr id) as [Hc Hu].
  unfold getWinner. split.
  - destruct (decide (id < electionCount c)%N) as [Hid|Hge].
    + destruct (Hc Hid) as (_ & _ & _ & H4 & _).
      destruct (fullyRevealed (elections c id)); simpl.
      * split; [intros _; split; [done|by apply H4] | done].
      * split; [done|]. intros [_ Hst]. by apply H4 in Hst.
    + destruct Hu as [(_ & _ & _ & Hfull & _) _]; [lia|].
      rewrite Hfull. simpl. split; [done|]. intros [? _]. lia.
  - by destruct (fullyRevealed (elections c id)).
Qed.

(** X11: a successful [resolveChoiceCallback] means the oracle certified the
    stored expected handle of that choice for the cleartext; the 32-bit
    count decoded from the first word of the cleartext becomes the revealed
    count of the choice and shows at its index in [getRevealedResults]; the
    revealed counts of the other choices, the encrypted counters and the
    voters are unchanged. *)
Theorem resolve_stores_certified_count c id ch ct pf c' log :
  resolveChoiceCallback id ch ct pf c = Ok (tt, c', log) →
  FHE.checkSignatures [expectedHandles (elections c id) ch] ct pf = true
  ∧ ∃ v, abi_decode_uint32 ct = Some v
      ∧ v = be_value (take 32 ct) ∧ (v < 2 ^ 32)%N
      ∧ revealedVotesPerChoice (elections c' id) ch = v
      ∧ getRevealedResults id c' !! N.to_nat ch = Some v
      ∧ (∀ i, i ≠ ch → revealedVotesPerChoice (elections c' id) i
                       = revealedVotesPerChoice (elections c id) i)
      ∧ encryptedVotesPerChoice (elections c' id)
        = encryptedVotesPerChoice (elections c id)
      ∧ hasVoted (elections c' id) = hasVoted (elections c id).
Proof.
  intros H. apply resolveChoiceCallback_ok in H
    as (_ & _ & Hch & _ & Hsig & v & Hdec & ->).
  split; [done|]. exists v. split; [done|].
  assert (Hv : v = be_value (take 32 ct) ∧ (v < 2 ^ 32)%N).
  { unfold abi_decode_uint32 in Hdec. repeat case_match; simplify_eq.
    split; [done|]. by apply N.ltb_lt. }
  destruct Hv as [Hv1 Hv2].
  rewrite elections_store. case_decide; [|done].
  assert (Hres : ∀ e, choiceCount e = choiceCount (elections c id) →
            revealedVotesPerChoice e ch = v →
            map (λ i, revealedVotesPerChoice e (N.of_nat i))
                (seq 0 (N.to_nat (choiceCount e))) !! N.to_nat ch = Some v).
  { intros e Hcc Hval. rewrite list_lookup_fmap, lookup_seq_lt by lia.
    simpl. by rewrite N2Nat.id, Hval. }
  unfold getRevealedResults. rewrite elections_store. case_decide; [|done].
  destruct (_ =? _)%N;
    (split_and!;
     [ done | done
     | simpl; by rewrite fn_lookup_insert
     | apply Hres; [done | simpl; by rewrite fn_lookup_insert]
     | intros i Hi; simpl; by rewrite fn_lookup_insert_ne
     | done | done ]).
Qed.

(** X12: an accepted vote touches only the chosen counter, which becomes
    the oracle's sum of the old counter and the vote, and the voter's own
    record and flag: the other counters, the other voters, the state, the
    reveal data, the title, labels and choice count, the owner, the
    election count and every other election are unchanged. *)
Theorem castVote_frame c voter id ch vi vp c' log :
  castVote voter id ch vi vp c = Ok (tt, c', log) →
  ∃ vote, FHE.fromExternal vi vp = Some vote
    ∧ encryptedVotesPerChoice (elections c' id) ch
      = FHE.add (encryptedVotesPerChoice (elections c id) ch) vote
    ∧ (∀ i, i ≠ ch → encryptedVotesPerChoice (elections c' id) i
                     = encryptedVotesPerChoice (elections c id) i)
    ∧ (∀ a, a ≠ voter →
         hasVoted (elections c' id) a = hasVoted (elections c id) a
         ∧ userVotes (elections c' id) a = userVotes (elections c id) a)
    ∧ state (elections c' id) = state (elections c id)
    ∧ revealedVotesPerChoice (elections c' id) = revealedVotesPerChoice (elections c id)
    ∧ choiceRevealed (elections c' id) = choiceRevealed (elections c id)
    ∧ expectedHandles (elections c' id) = expectedHandles (elections c id)
    ∧ fullyRevealed (elections c' id) = fullyRevealed (elections c id)
    ∧ revealedChoiceCount (elections c' id) = revealedChoiceCount (elections c id)
    ∧ title (elections c' id) = title (elections c id)
    ∧ choiceLabels (elections c' id) = choiceLabels (elections c id)
    ∧ choiceCount (elections c' id) = choiceCount (elections c id)
    ∧ owner c' = owner c
    ∧ electionCount c' = electionCount c
    ∧ (∀ id', id' ≠ id → elections c' id' = elections c id').
Proof.
  intros H. apply castVote_ok in H as (_ & _ & _ & vote & Hin & ->).
  exists vote. rewrite elections_store. case_decide; [|done]. simpl.
  split_and!; try done.
  - by rewrite fn_lookup_insert.
  - intros i Hi. by rewrite fn_lookup_insert_ne.
  - intros a Ha. by rewrite !fn_lookup_insert_ne.
  - intros id' Hne. by rewrite fn_lookup_insert_ne.
Qed.

Lemma step_handles_bound c tx :
  well_formed c → handles_bound c → handles_bound (step c tx).
Proof.
  intros Hwf Hb. destruct tx as [sender call]. unfold step, exec; simpl.
  destruct call.
  - destruct (createElection _ _ _ _ _ _) as [[[? c'] ?]|] eqn:H; [|done].
    apply createElection_ok in H as (_ & -> & _ & _ & _ & e' & ? & Hloop & -> & _).
    apply createElection_loop_frame in Hloop
      as (_ & _ & _ & _ & _ & _ & _ & _ & _ & F10).
    destruct (Hwf (electionCount c)) as [_ Hu].
    destruct Hu as [(_ & _ & _ & _ & _ & U6 & _) _]; [lia|].
    intros id ch. simpl. destruct (decide (electionCount c = id)) as [<-|Hne].
    + rewrite fn_lookup_insert, F10. simpl. left. apply U6.
    + rewrite fn_lookup_insert_ne by done. apply Hb.
  - destruct (openElection _ _ _) as [[[[] c'] ?]|] eqn:H; [|done].
    apply openElection_ok in H as (_ & Hst & ->). intros id' ch.
    rewrite elections_store. case_decide; [subst|apply Hb].
    destruct (Hb id' ch) as [?|[Hrk _]]; [by left|].
    rewrite Hst in Hrk. simpl in Hrk. lia.
  - destruct (closeElection _ _ _) as [[[[] c'] ?]|] eqn:H; [|done].
    apply closeElection_ok in H as (_ & Hst & ->). intros id' ch.
    rewrite elections_store. case_decide; [subst|apply Hb].
    destruct (Hb id' ch) as [?|[Hrk _]]; [by left|].
    rewrite Hst in Hrk. simpl in Hrk. lia.
  - destruct (castVote _ _ _ _ _ _) as [[[[] c'] ?]|] eqn:H; [|done].
    apply castVote_ok in H as (Hst & _ & _ & ? & _ & ->). intros id' ch.
    rewrite elections_store. case_decide; [subst|apply Hb].
    destruct (Hb id' ch) as [?|[Hrk _]]; [by left|].
    rewrite Hst in Hrk. simpl in Hrk. lia.
  - destruct (requestChoiceReveal _ _ _ _) as [[[[] c'] ?]|] eqn:H; [|done].
    apply requestChoiceReveal_ok in H as (_ & Hst & _ & _ & -> & _).
    intros id' ch. rewrite elections_store. case_decide; [subst|apply Hb].
    simpl. rewrite Hst. destruct (decide (choiceIndex = ch)) as [->|Hne].
    + right. rewrite !fn_lookup_insert. simpl. split; [lia|done].
    + rewrite !fn_lookup_insert_ne by done.
      destruct (Hb id' ch) as [?|[_ ?]]; [by left|right]. simpl. split; [lia|done].
  - destruct (resolveChoiceCallback _ _ _ _ _) as [[[[] c'] ?]|] eqn:H; [|done].
    apply resolveChoiceCallback_ok in H as (_ & Hst & _ & _ & _ & v & _ & ->).
    intros id' ch. rewrite elections_store. case_decide; [subst|apply Hb].
    destruct (Hb id' ch) as [?|[_ ?]]; destruct (_ =? _)%N; simpl;
      rewrite ?Hst; simpl; first [by left | right; split; [lia|done]].
Qed.

Lemma reachable_handles_bound c : reachable c → handles_bound c.
Proof.
  intros (d & txs & ->).
  assert (H0 : handles_bound (constructor d)) by (intros id ch; by left).
  revert H0. generalize (well_formed_constructor d). generalize (constructor d).
  induction txs as [|tx txs IH]; intros c Hwf Hb; [done|].
  apply IH; [by apply step_well_formed | by apply step_handles_bound].
Qed.

(** X13: in every reachable storage the expected handle of a choice is
    either unset (zero) or the handle of the choice's current encrypted
    counter; so a resolution that succeeds for a choice with a set expected
    handle was certified by the oracle for the handle of the counter the
    election holds. *)
Theorem expected_handle_is_current c id ch :
  reachable c →
  (expectedHandles (elections c id) ch = 0%N
   ∨ expectedHandles (elections c id) ch
     = FHE.toBytes32 (encryptedVotesPerChoice (elections c id) ch))
  ∧ (∀ ct pf,
       expectedHandles (elections c id) ch ≠ 0%N →
       succeeds (resolveChoiceCallback id ch ct pf c) = true →
       FHE.checkSignatures
         [FHE.toBytes32 (encryptedVotesPerChoice (elections c id) ch)] ct pf
       = true).
Proof.
  intros Hr. apply reachable_handles_bound in Hr.
  destruct (Hr id ch) as [H0|[_ Heq]].
  - split; [by left|]. intros ct pf Hne. done.
  - split; [by right|]. intros ct pf _ Hok.
    destruct (resolveChoiceCallback id ch ct pf c) as [[[[] c'] log]|] eqn:H;
      [|done].
    apply resolveChoiceCallback_ok in H as (_ & _ & _ & _ & Hsig & _).
    by rewrite <- Heq.
Qed.

(** X14: for a fully revealed election of a reachable storage the winner
    the client shows is defined: it is the label of the choice [getWinner]
    returns, the lowest-indexed choice with the largest revealed count. *)
Theorem client_winner_label c id :
  reachable c → fullyRevealed (elections c id) = true →
  ∃ i l, Client.winner id c = Some l
    ∧ choiceLabels (elections c id) !! N.to_nat i = Some l
    ∧ (∀ j, (j < choiceCount (elections c id))%N →
            (revealedVotesPerChoice (elections c id) j
             ≤ revealedVotesPerChoice (elections c id) i)%N)
    ∧ (∀ j, (j < i)%N →
            (revealedVotesPerChoice (elections c id) j
             < revealedVotesPerChoice (elections c id) i)%N).
Proof.
  intros Hr Hfull. pose proof (reachable_well_formed _ Hr) as Hwf.
  destruct (Hwf id) as [Hc Hu].
  assert (Hid : (id < electionCount c)%N).
  { destruct (decide (id < electionCount c)%N) as [|Hge]; [done|].
    destruct Hu as [(_ & _ & _ & Hf & _) _]; [lia|]. congruence. }
  destruct (Hc Hid) as (Hcc & Hlen & _).
  destruct (getWinner_spec c id Hfull) as (i & v & Hw & Hi & -> & Hmax & Hlow);
    [lia|].
  assert (Hlt : N.to_nat i < length (choiceLabels (elections c id))) by lia.
  destruct (lookup_lt_is_Some_2 _ _ Hlt) as [l Hl].
  exists i, l. unfold Client.winner, getElection. rewrite Hfull, Hw.
  rewrite (proj2 (N.ltb_lt _ _)) by lia. done.
Qed.

End Finality.

Lemma revealed_election_immutable_witness :
  elections (run (fhe := plainOracle) (voting ++ reveal 1) revealedPoll) 0%N
  = elections revealedPoll 0%N.
Proof.
  apply (revealed_election_immutable (fhe := plainOracle) revealedPoll 0%N
           (voting ++ reveal 1)); vm_compute; reflexivity.
Defined.

Lemma revealed_count_final_witness :
  choiceRevealed (elections (run (fhe := plainOracle) (reveal 1) afterResolve0) 0%N)
    0%N = true
  ∧ revealedVotesPerChoice
      (elections (run (fhe := plainOracle) (reveal 1) afterResolve0) 0%N) 0%N
    = revealedVotesPerChoice (elections afterResolve0 0%N) 0%N.
Proof.
  apply (revealed_count_final (fhe := plainOracle) afterResolve0 0%N 0%N (reveal 1));
    vm_compute; reflexivity.
Defined.

Lemma my_vote_round_trip_witness :
  getMyEncryptedVote alice 0 openPoll = Revert (Require "you haven't voted")
  ∧ getMyEncryptedVote alice 0
      (run (fhe := plainOracle) (reveal 0)
         (step (fhe := plainOracle) openPoll (alice, CastVote 0 0 1 proof)))
    = Ok 1%N.
Proof.
  apply (my_vote_round_trip (fhe := plainOracle) openPoll alice 0 0 1 proof 1
           (step (fhe := plainOracle) openPoll (alice, CastVote 0 0 1 proof))
           [Allow 1 alice; AllowThis 1; Allow 1 deployer;
            Emit (VoteCast 0 alice 0)] (reveal 0));
    vm_compute; reflexivity.
Defined.

Lemma getWinner_iff_revealed_witness :
  (succeeds (getWinner 0 revealedPoll) = true
   ↔ (0 < electionCount revealedPoll)%N
     ∧ state (elections revealedPoll 0%N) = Revealed)
  ∧ (succeeds (getWinner 0 revealedPoll) = false →
     getWinner 0 revealedPoll = Revert (Require "not fully revealed")).
Proof.
  apply (getWinner_iff_revealed (fhe := plainOracle) revealedPoll 0%N).
  apply reachable_revealedPoll.
Defined.

Lemma resolve_stores_certified_count_witness :
  let c := run (fhe := plainOracle) [(deployer, RequestChoiceReveal 0 0)]
               closedPoll in
  FHE.checkSignatures (Oracle := plainOracle)
    [expectedHandles (elections c 0%N) 0%N] (word x01) proof = true
  ∧ ∃ v, abi_decode_uint32 (word x01) = Some v
      ∧ v = be_value (take 32 (word x01)) ∧ (v < 2 ^ 32)%N
      ∧ revealedVotesPerChoice (elections afterResolve0 0%N) 0%N = v
      ∧ getRevealedResults 0 afterResolve0 !! N.to_nat 0 = Some v
      ∧ (∀ i, i ≠ 0%N → revealedVotesPerChoice (elections afterResolve0 0%N) i
                        = revealedVotesPerChoice (elections c 0%N) i)
      ∧ encryptedVotesPerChoice (elections afterResolve0 0%N)
        = encryptedVotesPerChoice (elections c 0%N)
      ∧ hasVoted (elections afterResolve0 0%N) = hasVoted (elections c 0%N).
Proof.
  apply (resolve_stores_certified_count (fhe := plainOracle)
           (run (fhe := plainOracle) [(deployer, RequestChoiceReveal 0 0)] closedPoll)
           0 0 (word x01) proof afterResolve0 [Emit (ChoiceRevealed 0 0 1)]).
  vm_compute. reflexivity.
Defined.

Lemma castVote_frame_witness :
  let c' := step (fhe := plainOracle) openPoll (alice, CastVote 0 0 1 proof) in
  ∃ vote, FHE.fromExternal (Oracle := plainOracle) 1 proof = Some vote
    ∧ encryptedVotesPerChoice (elections c' 0%N) 0%N
      = FHE.add (Oracle := plainOracle)
          (encryptedVotesPerChoice (elections openPoll 0%N) 0%N) vote
    ∧ (∀ i, i ≠ 0%N → encryptedVotesPerChoice (elections c' 0%N) i
                      = encryptedVotesPerChoice (elections openPoll 0%N) i)
    ∧ (∀ a, a ≠ alice →
         hasVoted (elections c' 0%N) a = hasVoted (elections openPoll 0%N) a
         ∧ userVotes (elections c' 0%N) a = userVotes (elections openPoll 0%N) a)
    ∧ state (elections c' 0%N) = state (elections openPoll 0%N)
    ∧ revealedVotesPerChoice (elections c' 0%N)
      = revealedVotesPerChoice (elections openPoll 0%N)
    ∧ choiceRevealed (elections c' 0%N) = choiceRevealed (elections openPoll 0%N)
    ∧ expectedHandles (elections c' 0%N) = expectedHandles (elections openPoll 0%N)
    ∧ fullyRevealed (elections c' 0%N) = fullyRevealed (elections openPoll 0%N)
    ∧ revealedChoiceCount (elections c' 0%N)
      = revealedChoiceCount (elections openPoll 0%N)
    ∧ title (elections c' 0%N) = title (elections openPoll 0%N)
    ∧ choiceLabels (elections c' 0%N) = choiceLabels (elections openPoll 0%N)
    ∧ choiceCount (elections c' 0%N) = choiceCount (elections openPoll 0%N)
    ∧ owner c' = owner openPoll
    ∧ electionCount c' = electionCount openPoll
    ∧ (∀ id', id' ≠ 0%N → elections c' id' = elections openPoll id').
Proof.
  apply (castVote_frame (fhe := plainOracle) openPoll alice 0 0 1 proof
           (step (fhe := plainOracle) openPoll (alice, CastVote 0 0 1 proof))
           [Allow 1 alice; AllowThis 1; Allow 1 deployer;
            Emit (VoteCast 0 alice 0)]).
  vm_compute. reflexivity.
Defined.

Lemma expected_handle_is_current_witness :
  (expectedHandles (elections revealedPoll 0%N) 0%N = 0%N
   ∨ expectedHandles (elections revealedPoll 0%N) 0%N
     = FHE.toBytes32 (Oracle := plainOracle)
         (encryptedVotesPerChoice (elections revealedPoll 0%N) 0%N))
  ∧ (∀ ct pf,
       expectedHandles (elections revealedPoll 0%N) 0%N ≠ 0%N →
       succeeds (resolveChoiceCallback (fhe := plainOracle) 0 0 ct pf revealedPoll)
       = true →
       FHE.checkSignatures (Oracle := plainOracle)
         [FHE.toBytes32 (Oracle := plainOracle)
            (encryptedVotesPerChoice (elections revealedPoll 0%N) 0%N)] ct pf
       = true).
Proof.
  apply (expected_handle_is_current (fhe := plainOracle) revealedPoll 0%N 0%N).
  apply reachable_revealedPoll.
Defined.

Lemma client_winner_label_witness :
  ∃ i l, Client.winner 0 revealedPoll = Some l
    ∧ choiceLabels (elections revealedPoll 0%N) !! N.to_nat i = Some l
    ∧ (∀ j, (j < choiceCount (elections revealedPoll 0%N))%N →
            (revealedVotesPerChoice (elections revealedPoll 0%N) j
             ≤ revealedVotesPerChoice (elections revealedPoll 0%N) i)%N)
    ∧ (∀ j, (j < i)%N →
            (revealedVotesPerChoice (elections revealedPoll 0%N) j
             < revealedVotesPerChoice (elections revealedPoll 0%N) i)%N).
Proof.
  apply (client_winner_label (fhe := plainOracle) revealedPoll 0%N).
  - apply reachable_revealedPoll.
  - vm_compute. reflexivity.
Defined.

(** The client shows "Yes" for the tied two-choice poll. *)
Example client_winner_tie : Client.winner 0 revealedPoll = Some "Yes".
Proof. vm_compute. reflexivity. Qed.

End EnhancedExtra.

(** * Properties of VaultVote, the single-tally contract *)

Module BasicExtra.

Import Basic BasicLedger.
Import Enhanced (ElectionState, Created, Open, Closed, Revealed, state_eqb).
Import Ledger (rank, moves_forward).
Import EnhancedProofs (state_eqb_true, state_eqb_false, moves_forward_rank).

Ltac fn_cases :=
  repeat match goal with
  | |- context [ (<[?a := ?v]> ?f) ?b ] =>
      destruct (decide (a = b)) as [?|?];
      [ subst; rewrite ?fn_lookup_insert
      | rewrite (fn_lookup_insert_ne f a b v) by done ]
  end.

Ltac unfold_calls :=
  unfold step, exec, createElection, openElection, closeElection, castVote,
    requestTallyReveal, resolveTallyCallback, store, incr in *.

(** The value of the four bytes of [abi.encodePacked] is the encoded
    number. *)
Lemma encodePacked_uint32_value v :
  (v < 2 ^ 32)%N →
  fold_left (λ acc b, (acc * 256 + b)%N) (encodePacked_uint32 v) 0%N = v
  ∧ length (encodePacked_uint32 v) = 4
  ∧ Forall (λ b, (b < 256)%N) (encodePacked_uint32 v).
Proof.
  intros Hv. split_and!; [|done|].
  - unfold encodePacked_uint32. simpl.
    change (2 ^ 24)%N with (256 * (256 * 256))%N.
    change (2 ^ 16)%N with (256 * 256)%N. change (2 ^ 8)%N with 256%N.
    rewrite <- !N.Div0.div_div.
    pose proof (N.div_mod' v 256) as H0.
    pose proof (N.div_mod' (v / 256) 256) as H1.
    pose proof (N.div_mod' (v / 256 / 256) 256) as H2.
    assert (H3 : (v / 256 / 256 / 256 < 256)%N).
    { rewrite !N.Div0.div_div. apply N.Div0.div_lt_upper_bound.
      change (2 ^ 32)%N with (256 * 256 * 256 * 256)%N in Hv. lia. }
    rewrite (N.mod_small _ _ H3). lia.
  - unfold encodePacked_uint32.
    repeat constructor; apply N.mod_upper_bound; lia.
Qed.

Section Oracle.
Context `{fhe : FHE.Oracle}.

(** X15: [resolveTallyCallback] never reverts with "already revealed": the
    check that the state is not Revealed comes after the check that it is
    Closed, so a repeated resolution is refused with "must be closed". *)
Theorem tally_resolve_never_already_revealed c id ct pf :
  resolveTallyCallback id ct pf c ≠ Revert (Require "already revealed")
  ∧ (state (elections c id) = Revealed →
     succeeds (resolveTallyCallback id ct pf c) = false).
Proof.
  unfold resolveTallyCallback. split.
  - destruct (id <? electionCount c)%N; [|done].
    destruct (revealRequested (elections c id)); [|done].
    destruct (state_eqb (state (elections c id)) Closed) eqn:Hst; [|done].
    apply state_eqb_true in Hst. rewrite Hst. simpl.
    by repeat case_match.
  - intros Hst. rewrite Hst. simpl. by repeat case_match.
Qed.

(** X16: a successful [resolveTallyCallback] means the reveal was requested
    and the oracle certified the stored expected handle; the election
    becomes Revealed and its result is the four big-endian bytes of the
    32-bit tally decoded from the cleartext, whose value is that tally; the
    encrypted tally and the voters are unchanged. *)
Theorem tally_result_encoding c id ct pf c' log :
  resolveTallyCallback id ct pf c = Ok (tt, c', log) →
  revealRequested (elections c id) = true
  ∧ FHE.checkSignatures [expectedTallyHandle (elections c id)] ct pf = true
  ∧ state (elections c' id) = Revealed
  ∧ encryptedTally (elections c' id) = encryptedTally (elections c id)
  ∧ hasVoted (elections c' id) = hasVoted (elections c id)
  ∧ ∃ v, abi_decode_uint32 ct = Some v
      ∧ revealedResult (elections c' id) = encodePacked_uint32 v
      ∧ length (revealedResult (elections c' id)) = 4
      ∧ fold_left (λ acc b, (acc * 256 + b)%N)
                  (revealedResult (elections c' id)) 0%N = v.
Proof.
  unfold resolveTallyCallback, store. intros H.
  destruct (id <? electionCount c)%N; [|done].
  destruct (revealRequested (elections c id)) eqn:Hreq; [|done].
  destruct (state_eqb (state (elections c id)) Closed) eqn:Hst; [|done].
  destruct (negb (state_eqb (state (elections c id)) Revealed)); [|done].
  destruct (FHE.checkSignatures _ ct pf) eqn:Hsig; [|done]. cbn [negb] in H.
  destruct (abi_decode_uint32 ct) as [v|] eqn:Hdec; [|done].
  simplify_eq. cbn. rewrite fn_lookup_insert. cbn.
  split_and!; try done. exists v.
  assert (Hv : (v < 2 ^ 32)%N).
  { unfold abi_decode_uint32 in Hdec. repeat case_match; simplify_eq.
    by apply N.ltb_lt. }
  destruct (encodePacked_uint32_value v Hv) as (H1 & H2 & _).
  done.
Qed.

Lemma tally_step_revealed c tx id :
  (id < electionCount c)%N → state (elections c id) = Revealed →
  (id < electionCount (step c tx))%N
  ∧ elections (step c tx) id = elections c id.
Proof.
  intros Hid Hst. destruct tx as [sender call]. destruct call; unfold_calls;
    simpl; repeat case_match; simplify_eq/=; rewrite ?state_eqb_true in *;
    fn_cases;
    first [ done | congruence | by (exfalso; lia) | split; [lia|done] ].
Qed.

(** X17: the tally is revealed once: after a successful
    [resolveTallyCallback], no sequence of transactions changes anything of
    the election, and every further resolution reverts with "must be
    closed". *)
Theorem tally_revealed_once c id ct pf c1 log txs ct' pf' :
  resolveTallyCallback id ct pf c = Ok (tt, c1, log) →
  elections (run txs c1) id = elections c1 id
  ∧ resolveTallyCallback id ct' pf' (run txs c1)
    = Revert (Require "must be closed").
Proof.
  intros H.
  assert (H1 : (id < electionCount c1)%N ∧ state (elections c1 id) = Revealed
               ∧ revealRequested (elections c1 id) = true).
  { unfold resolveTallyCallback, store in H.
    repeat case_match; simplify_eq/=. rewrite fn_lookup_insert. simpl.
    rewrite N.ltb_lt in *. done. }
  destruct H1 as (Hid & Hst & Hreq).
  assert (Hrun : ∀ txs c, (id < electionCount c)%N →
            state (elections c id) = Revealed →
            (id < electionCount (run txs c))%N
            ∧ elections (run txs c) id = elections c id).
  { clear. intros txs. induction txs as [|tx txs IH]; intros c Hid Hst; [done|].
    change (run (tx :: txs) c) with (run txs (step c tx)).
    destruct (tally_step_revealed c tx id Hid Hst) as [Hid' Heq].
    destruct (IH (step c tx) Hid') as [? ?]; [by rewrite Heq|].
    split; [done|]. congruence. }
  destruct (Hrun txs c1 Hid Hst) as [Hid2 Heq]. split; [done|].
  unfold resolveTallyCallback. rewrite Heq, Hreq, Hst.
  by rewrite (proj2 (N.ltb_lt _ _) Hid2).
Qed.

Lemma tally_step_bound c tx : tally_bound c → tally_bound (step c tx).
Proof.
  intros Hb id. specialize (Hb id). destruct tx as [sender call].
  destruct call; unfold_calls; simpl; repeat case_match; simplify_eq/=;
    rewrite ?state_eqb_true in *; fn_cases; simpl; try done.
  all: try (intros Hreq; destruct (Hb Hreq) as [Hrk Heq];
            repeat match goal with
                   | H : state _ = _ |- _ => rewrite H in *
                   end; simpl in *; first [lia | split; [lia|done] | done]).
  all: try (intros _; repeat match goal with
                   | H : state _ = _ |- _ => rewrite H in *
                   end; simpl; split; [lia|done]).
  all: intros _; destruct Hb as [_ Heq]; [done|]; split; [simpl; lia|done].
Qed.

(** X18: in every reachable storage, an election whose reveal is requested
    is Closed or Revealed and its expected handle is the handle of its
    encrypted tally; so a resolution that succeeds was certified by the
    oracle for the tally the election holds. *)
Theorem tally_handle_is_current c id :
  reachable c →
  (revealRequested (elections c id) = true →
     2 ≤ rank (state (elections c id))
     ∧ expectedTallyHandle (elections c id)
       = FHE.toBytes32 (encryptedTally (elections c id)))
  ∧ (∀ ct pf, succeeds (resolveTallyCallback id ct pf c) = true →
       FHE.checkSignatures [FHE.toBytes32 (encryptedTally (elections c id))] ct pf
       = true).
Proof.
  intros (d & txs & ->).
  assert (Hb : tally_bound (run txs (constructor d))).
  { assert (H0 : tally_bound (constructor d)) by (intros ?; done).
    revert H0. generalize (constructor d).
    induction txs as [|tx txs IH]; intros c Hb; [done|].
    apply IH. by apply tally_step_bound. }
  split; [apply Hb|]. intros ct pf Hok.
  destruct (resolveTallyCallback id ct pf _) as [[[[] c'] log]|] eqn:H; [|done].
  apply tally_result_encoding in H as (Hreq & Hsig & _).
  destruct (Hb id Hreq) as [_ <-]. done.
Qed.

Lemma tally_step_hasVoted c tx id a :
  hasVoted (elections c id) a = true →
  hasVoted (elections (step c tx) id) a = true.
Proof.
  intros Hv. destruct tx as [sender call].
  destruct call; unfold_calls; simpl; repeat case_match; simplify_eq/=;
    fn_cases; simpl; try done.
  fn_cases; done.
Qed.

(** X19: one vote per address and election id: after an accepted
    [castVote], the voter's flag stays set through every sequence of
    transactions, [createElection] included, and every further vote of that
    address for that id reverts. *)
Theorem tally_one_vote_per_address c voter id vi vp c' log txs vi' vp' :
  castVote voter id vi vp c = Ok (tt, c', log) →
  hasVoted (elections (run txs c') id) voter = true
  ∧ succeeds (castVote voter id vi' vp' (run txs c')) = false.
Proof.
  intros H.
  assert (H1 : hasVoted (elections c' id) voter = true).
  { unfold castVote, store in H. repeat case_match; simplify_eq/=.
    rewrite fn_lookup_insert. simpl. by rewrite fn_lookup_insert. }
  assert (H2 : hasVoted (elections (run txs c') id) voter = true).
  { clear H. revert c' H1. induction txs as [|tx txs IH]; intros c' H1; [done|].
    change (run (tx :: txs) c') with (run txs (step c' tx)).
    apply IH. by apply tally_step_hasVoted. }
  split; [done|]. unfold castVote. rewrite H2. simpl. by repeat case_match.
Qed.

Lemma tally_step_forward c tx id :
  (id < electionCount c)%N →
  (id < electionCount (step c tx))%N
  ∧ moves_forward (state (elections c id)) (state (elections (step c tx) id)).
Proof.
  intros Hid. destruct tx as [sender call].
  destruct call; unfold_calls; simpl; repeat case_match; simplify_eq/=;
    rewrite ?state_eqb_true in *; fn_cases; simpl;
    (split; [lia|]);
    first [ by left
          | by (exfalso; lia)
          | match goal with
            | H : state _ = _ |- moves_forward _ _ => rewrite H; by right
            end ].
Qed.

(** X20: the state of an existing single-tally election only moves forward
    along Created, Open, Closed, Revealed: after any sequence of
    transactions its rank is at least what it was, and one transaction
    moves it by at most one state. *)
Theorem tally_state_moves_forward c id txs tx :
  (id < electionCount c)%N →
  rank (state (elections c id)) ≤ rank (state (elections (run txs c) id))
  ∧ moves_forward (state (elections (run txs c) id))
                  (state (elections (step (run txs c) tx) id)).
Proof.
  intros Hid.
  assert (Hrun : (id < electionCount (run txs c))%N
                 ∧ rank (state (elections c id))
                   ≤ rank (state (elections (run txs c) id))).
  { revert c Hid. induction txs as [|tx' txs IH]; intros c Hid; [done|].
    change (run (tx' :: txs) c) with (run txs (step c tx')).
    destruct (tally_step_forward c tx' id Hid) as [Hid' Hfwd].
    destruct (IH _ Hid') as [? ?]. split; [done|].
    apply moves_forward_rank in Hfwd. lia. }
  destruct Hrun as [Hid' Hle]. split; [done|].
  by apply tally_step_forward.
Qed.

End Oracle.

Import Fixture BasicFixture.

Lemma tally_resolve_never_already_revealed_witness :
  resolveTallyCallback (fhe := plainOracle) 0 (word x01) proof revealedTally
  ≠ Revert (Require "already revealed")
  ∧ (state (elections revealedTally 0%N) = Revealed →
     succeeds (resolveTallyCallback (fhe := plainOracle) 0 (word x01) proof
                 revealedTally) = false).
Proof.
  apply (tally_resolve_never_already_revealed (fhe := plainOracle)
           revealedTally 0 (word x01) proof).
Defined.

Lemma tally_result_encoding_witness :
  revealRequested (elections requestedTally 0%N) = true
  ∧ FHE.checkSignatures (Oracle := plainOracle)
      [expectedTallyHandle (elections requestedTally 0%N)] (word x01) proof = true
  ∧ state (elections revealedTally 0%N) = Revealed
  ∧ encryptedTally (elections revealedTally 0%N)
    = encryptedTally (elections requestedTally 0%N)
  ∧ hasVoted (elections revealedTally 0%N) = hasVoted (elections requestedTally 0%N)
  ∧ ∃ v, abi_decode_uint32 (word x01) = Some v
      ∧ revealedResult (elections revealedTally 0%N) = encodePacked_uint32 v
      ∧ length (revealedResult (elections revealedTally 0%N)) = 4
      ∧ fold_left (λ acc b, (acc * 256 + b)%N)
                  (revealedResult (elections revealedTally 0%N)) 0%N = v.
Proof.
  apply (tally_result_encoding (fhe := plainOracle) requestedTally 0 (word x01)
           proof revealedTally [Emit (TallyRevealed 0 [0; 0; 0; 1]%N)]).
  vm_compute. reflexivity.
Defined.

Lemma tally_revealed_once_witness :
  elections (run (fhe := plainOracle) [(deployer, OpenElection 0)] revealedTally) 0%N
  = elections revealedTally 0%N
  ∧ resolveTallyCallback (fhe := plainOracle) 0 (word x02) proof
      (run (fhe := plainOracle) [(deployer, OpenElection 0)] revealedTally)
    = Revert (Require "must be closed").
Proof.
  apply (tally_revealed_once (fhe := plainOracle) requestedTally 0 (word x01)
           proof revealedTally [Emit (TallyRevealed 0 [0; 0; 0; 1]%N)]
           [(deployer, OpenElection 0)] (word x02) proof).
  vm_compute. reflexivity.
Defined.

Lemma reachable_tally :
  reachable (fhe := plainOracle)
    (run (fhe := plainOracle) tallySetup (constructor deployer)).
Proof. by exists deployer, tallySetup. Qed.

Lemma tally_handle_is_current_witness :
  let c := run (fhe := plainOracle) tallySetup (constructor deployer) in
  (revealRequested (elections c 0%N) = true →
     2 ≤ rank (state (elections c 0%N))
     ∧ expectedTallyHandle (elections c 0%N)
       = FHE.toBytes32 (Oracle := plainOracle) (encryptedTally (elections c 0%N)))
  ∧ (∀ ct pf, succeeds (resolveTallyCallback (fhe := plainOracle) 0 ct pf c) = true →
       FHE.checkSignatures (Oracle := plainOracle)
         [FHE.toBytes32 (Oracle := plainOracle) (encryptedTally (elections c 0%N))]
         ct pf = true).
Proof.
  apply (tally_handle_is_current (fhe := plainOracle)
           (run (fhe := plainOracle) tallySetup (constructor deployer)) 0%N).
  apply reachable_tally.
Defined.

Lemma tally_one_vote_per_address_witness :
  let c := run (fhe := plainOracle) (take 2 tallySetup) (constructor deployer) in
  let c' := step (fhe := plainOracle) c (alice, CastVote 0 1 proof) in
  hasVoted (elections (run (fhe := plainOracle) [(bob, CastVote 0 1 proof)] c') 0%N)
    alice = true
  ∧ succeeds (castVote (fhe := plainOracle) alice 0 1 proof
                (run (fhe := plainOracle) [(bob, CastVote 0 1 proof)] c')) = false.
Proof.
  apply (tally_one_vote_per_address (fhe := plainOracle)
           (run (fhe := plainOracle) (take 2 tallySetup) (constructor deployer))
           alice 0 1 proof
           (step (fhe := plainOracle)
              (run (fhe := plainOracle) (take 2 tallySetup) (constructor deployer))
              (alice, CastVote 0 1 proof))
           [AllowThis 1; Allow 1 deployer; Emit (VoteCast 0 alice);
            Emit (TallyUpdated 0)]
           [(bob, CastVote 0 1 proof)] 1 proof).
  vm_compute. reflexivity.
Defined.

Lemma tally_state_moves_forward_witness :
  rank (state (elections closedTally 0%N))
  ≤ rank (state (elections
                   (run (fhe := plainOracle) [(deployer, RequestTallyReveal 0)]
                        closedTally) 0%N))
  ∧ moves_forward
      (state (elections
                (run (fhe := plainOracle) [(deployer, RequestTallyReveal 0)]
                     closedTally) 0%N))
      (state (elections
                (step (fhe := plainOracle)
                   (run (fhe := plainOracle) [(deployer, RequestTallyReveal 0)]
                        closedTally)
                   (alice, ResolveTallyCallback 0 (word x01) proof)) 0%N)).
Proof.
  apply (tally_state_moves_forward (fhe := plainOracle) closedTally 0%N
           [(deployer, RequestTallyReveal 0)]
           (alice, ResolveTallyCallback 0 (word x01) proof)).
  vm_compute. reflexivity.
Defined.

End BasicExtra.

(** * Further properties of the metadata gateway *)

Module GatewayExtra.

Import Routes Storage MetadataRoutes.
Import GatewayProofs.

Lemma strip_prefix_sound p : ∀ s r, JS.strip_prefix p s = Some r → s = p +:+ r.
Proof.
  induction p as [|a p IH]; intros s r H; simpl in *; [by simplify_eq|].
  destruct s as [|b s]; [done|].
  destruct (Ascii.eqb a b) eqn:Hab; [|done].
  apply Ascii.eqb_eq in Hab as ->. by rewrite (IH _ _ H).
Qed.

Lemma span_sound f : ∀ s a b,
  JS.span f s = (a, b) → s = a +:+ b ∧ JS.all_chars f a = true.
Proof.
  induction s as [|c s IH]; intros a b H; simpl in *; [by simplify_eq|].
  destruct (f c) eqn:Hc; [|by simplify_eq].
  destruct (JS.span f s) as [a' b'] eqn:Hs. simplify_eq.
  destruct (IH _ _ eq_refl) as [-> Hall]. simpl. by rewrite Hc, Hall.
Qed.

(** X21: the message pattern accepts exactly the messages built on the
    template: the text [Toggle hidden for election ], a non-empty string of
    decimal digits, the text [ with nonce ] and a non-empty string of
    lower-case hexadecimal digits up to the end of the message; the two
    captured groups are these two strings. *)
Theorem messagePattern_exact message digits n :
  messagePattern message = Some (digits, n)
  ↔ message = "Toggle hidden for election " +:+ digits +:+ " with nonce " +:+ n
    ∧ digits ≠ EmptyString ∧ JS.all_chars JS.is_digit digits = true
    ∧ n ≠ EmptyString ∧ JS.all_chars JS.is_hex n = true.
Proof.
  split.
  - unfold messagePattern. intros H.
    destruct (JS.strip_prefix _ message) as [r1|] eqn:H1; [|done].
    destruct (JS.span JS.is_digit r1) as [ds r2] eqn:H2.
    destruct ds as [|c ds]; [done|].
    destruct (JS.strip_prefix _ r2) as [r3|] eqn:H3; [|done].
    destruct r3 as [|c3 r3]; [done|].
    destruct (JS.all_chars JS.is_hex (String c3 r3)) eqn:H4; [|done].
    simplify_eq.
    apply strip_prefix_sound in H1 as ->. apply strip_prefix_sound in H3 as ->.
    apply span_sound in H2 as [-> Hd]. done.
  - intros (-> & Hd & Hdigits & Hn & Hhex). by apply messagePattern_template.
Qed.

Lemma hex_digit_inj a b :
  (a < 16)%N → (b < 16)%N → JS.hex_digit a = JS.hex_digit b → a = b.
Proof.
  intros Ha Hb H. unfold JS.hex_digit in H.
  apply (f_equal N_of_ascii) in H.
  rewrite !N_ascii_embedding in H by (repeat case_match; lia).
  repeat case_match; rewrite ?N.ltb_lt, ?N.ltb_ge in *; lia.
Qed.

Lemma to_hex_injective (a : list byte) : ∀ b, JS.to_hex a = JS.to_hex b → a = b.
Proof.
  induction a as [|x a IH]; intros [|y b] H; simpl in H; try done.
  injection H as H1 H2 H3.
  assert (Hx : (Byte.to_N x < 256)%N) by (pose proof (Byte.to_N_bounded x); lia).
  assert (Hy : (Byte.to_N y < 256)%N) by (pose proof (Byte.to_N_bounded y); lia).
  apply hex_digit_inj in H1; [|apply N.Div0.div_lt_upper_bound; lia..].
  apply hex_digit_inj in H2; [|apply N.mod_upper_bound; lia..].
  assert (Hxy : Byte.to_N x = Byte.to_N y).
  { rewrite (N.div_mod' (Byte.to_N x) 16), (N.div_mod' (Byte.to_N y) 16).
    by rewrite H1, H2. }
  assert (x = y) as ->.
  { pose proof (Byte.of_to_N x) as Ex. pose proof (Byte.of_to_N y) as Ey.
    rewrite Hxy in Ex. congruence. }
  f_equal. by apply IH.
Qed.

Lemma to_hex_length (a : list byte) : String.length (JS.to_hex a) = 2 * length a.
Proof. induction a as [|x a IH]; simpl; [done|]. rewrite IH. lia. Qed.

(** X22: two nonce requests that draw different random bytes get different
    nonces: after both, each nonce is in the store with its own election id
    and an expiry five minutes after its issue, the nonce has two characters
    per random byte, no other nonce is touched and the metadata is
    unchanged; a route id that does not parse is answered 400 and changes
    nothing. *)
Theorem distinct_random_distinct_nonces (now1 now2 : Z) (r1 r2 : list byte)
    (id1 id2 : string) (e1 e2 : JS.num) (st : Server) :
  let st1 := (getNonce now1 r1 id1 st).1.1 in
  let st2 := (getNonce now2 r2 id2 st1).1.1 in
  r1 ≠ r2 → JS.parseInt10 id1 = Some e1 → JS.parseInt10 id2 = Some e2 →
  nonceStore st2 !! JS.to_hex r1
  = Some (mkNonceData (JS.to_hex r1) e1 (now1 + 300000))
  ∧ nonceStore st2 !! JS.to_hex r2
    = Some (mkNonceData (JS.to_hex r2) e2 (now2 + 300000))
  ∧ String.length (JS.to_hex r1) = 2 * length r1
  ∧ storage st2 = storage st
  ∧ (∀ n, n ≠ JS.to_hex r1 → n ≠ JS.to_hex r2 →
          nonceStore st2 !! n = nonceStore st !! n)
  ∧ (∀ now r id, JS.parseInt10 id = None →
       getNonce now r id st
       = (st, mkResponse 400 (ErrorBody "Invalid election ID"), [])).
Proof.
  intros st1 st2 Hne H1 H2. subst st1 st2. unfold getNonce.
  rewrite H1, H2. simpl.
  assert (Hhex : JS.to_hex r2 ≠ JS.to_hex r1).
  { intros Heq. apply to_hex_injective in Heq. congruence. }
  split_and!.
  - by rewrite lookup_insert_ne, lookup_insert_eq.
  - by rewrite lookup_insert_eq.
  - apply to_hex_length.
  - done.
  - intros n Hn1 Hn2. by rewrite !lookup_insert_ne.
  - intros now r id Hid. by rewrite Hid.
Qed.

Section WithVerifier.
Variable verifyMessage : string → string → option string.

(** X23: the toggle handler never adds a nonce and never changes the
    metadata of an election other than the route's; whenever it answers
    anything but 200 the whole metadata storage is as before. *)
Theorem toggle_failure_keeps_metadata (now : Z) (req : ToggleRequest) (st : Server) :
  let st' := (toggleHidden verifyMessage now req st).1.1 in
  let resp := (toggleHidden verifyMessage now req st).1.2 in
  (status resp ≠ 200%N → storage st' = storage st)
  ∧ (∀ k, JS.parseInt10 (params_id req) ≠ Some k →
          storage st' !! k = storage st !! k)
  ∧ (∀ n d, nonceStore st' !! n = Some d → nonceStore st !! n = Some d).
Proof.
  unfold toggleHidden.
  repeat case_match; simpl; split_and!; try done.
  all: try (intros n' d' Hl; apply lookup_delete_Some in Hl as [_ ?]; done).
  intros k Hk. unfold saveElectionMetadata; simpl.
  rewrite storage_lookup_insert_ne; [done|]. congruence.
Qed.

(** X24: a nonce past its expiry time is never accepted: whatever else the
    request carries the answer is not 200 and the metadata is unchanged,
    and when the request is complete and made for the nonce's election the
    answer is 401 "Nonce expired" and the nonce is removed. *)
Theorem expired_nonce_rejected (now : Z) (req : ToggleRequest) (st : Server)
    (n : string) (d : NonceData) :
  JS.truthy (req_nonce req) = Some n →
  nonceStore st !! n = Some d → (expiresAt d < now)%Z →
  let st' := (toggleHidden verifyMessage now req st).1.1 in
  let resp := (toggleHidden verifyMessage now req st).1.2 in
  status resp ≠ 200%N ∧ storage st' = storage st
  ∧ (JS.parseInt10 (params_id req) = Some (Routes.electionId d) →
     is_Some (JS.truthy (message req)) → is_Some (JS.truthy (signature req)) →
     resp = mkResponse 401 (ErrorBody "Nonce expired")
     ∧ nonceStore st' = delete n (nonceStore st)).
Proof.
  intros Hn Hd Hexp. apply Z.ltb_lt in Hexp. unfold toggleHidden.
  rewrite Hn. split_and!.
  - repeat case_match; simpl; try done; simplify_eq; congruence.
  - repeat case_match; simpl; try done; simplify_eq; congruence.
  - intros Hid [m Hm] [sg Hsg]. rewrite Hid, Hm, Hsg, Hd.
    rewrite bool_decide_eq_true_2 by done. simpl. by rewrite Hexp.
Qed.

(** X25: a nonce obtained from the nonce route opens the toggle route for
    five minutes: for a route id that parses, a message on the template
    with the issued nonce and digits that parse to the same id, and a
    signature the verifier recovers, the toggle answers 200 at every time up
    to issue time plus 300000 ms and consumes the nonce, and answers 401
    "Nonce expired" at every later time. *)
Theorem issued_nonce_toggles (now0 now : Z) (random : list byte) (st : Server)
    (id digits sg a : string) (eid : JS.num) :
  let nonce := JS.to_hex random in
  let st1 := (getNonce now0 random id st).1.1 in
  let msg := "Toggle hidden for election " +:+ digits +:+ " with nonce " +:+ nonce in
  let req := mkToggleRequest id (Some msg) (Some sg) (Some nonce) in
  random ≠ [] →
  JS.parseInt10 id = Some eid →
  digits ≠ EmptyString → JS.all_chars JS.is_digit digits = true →
  JS.parseInt10 digits = Some eid →
  sg ≠ EmptyString → verifyMessage msg sg = Some a →
  ((now ≤ now0 + 300000)%Z →
     status (toggleHidden verifyMessage now req st1).1.2 = 200%N
     ∧ nonceStore (toggleHidden verifyMessage now req st1).1.1 !! nonce = None)
  ∧ ((now0 + 300000 < now)%Z →
       (toggleHidden verifyMessage now req st1).1.2
       = mkResponse 401 (ErrorBody "Nonce expired")).
Proof.
  intros nonce st1 msg req Hrand Hid Hd Hdigits Hpd Hsg Hv.
  assert (Hne : nonce ≠ EmptyString).
  { subst nonce. destruct random; [done|]. done. }
  assert (Hhex : JS.all_chars JS.is_hex nonce = true) by apply to_hex_is_hex.
  assert (Hst1 : nonceStore st1 !! nonce
                 = Some (mkNonceData nonce eid (now0 + 5 * 60 * 1000))).
  { subst st1. unfold getNonce. rewrite Hid. simpl. by rewrite lookup_insert_eq. }
  assert (Hmsg : JS.truthy (Some msg) = Some msg) by done.
  assert (Hsgt : JS.truthy (Some sg) = Some sg) by by destruct sg.
  assert (Hnt : JS.truthy (Some nonce) = Some nonce) by by destruct nonce.
  unfold toggleHidden, req. cbn [params_id message signature req_nonce].
  rewrite Hid, Hmsg, Hsgt, Hnt, Hst1.
  cbn [Routes.electionId expiresAt].
  rewrite bool_decide_eq_true_2 by done. cbn [negb].
  split.
  - intros Hnow.
    destruct (_ <? now)%Z eqn:Hlt; [apply Z.ltb_lt in Hlt; lia|].
    rewrite Hv. subst msg. rewrite messagePattern_template by done.
    rewrite Hpd, !bool_decide_eq_true_2 by done. simpl.
    split; [done|]. by rewrite lookup_delete_eq.
  - intros Hnow.
    destruct (_ <? now)%Z eqn:Hlt; [done|apply Z.ltb_ge in Hlt; lia].
Qed.

(** X26: the periodic sweep removes exactly the nonces whose expiry time has
    passed and leaves the metadata alone, and it is invisible to accepted
    requests: at any later time a toggle request is answered 200 after the
    sweep exactly when it is without it, with the same metadata storage
    after it. *)
Theorem sweep_only_expired (now now' : Z) (req : ToggleRequest) (st : Server) :
  (∀ n d, nonceStore (sweep now st) !! n = Some d
          ↔ nonceStore st !! n = Some d ∧ ¬ (expiresAt d < now)%Z)
  ∧ storage (sweep now st) = storage st
  ∧ ((now ≤ now')%Z →
     (status (toggleHidden verifyMessage now' req (sweep now st)).1.2 = 200%N
      ↔ status (toggleHidden verifyMessage now' req st).1.2 = 200%N)
     ∧ storage (toggleHidden verifyMessage now' req (sweep now st)).1.1
       = storage (toggleHidden verifyMessage now' req st).1.1).
Proof.
  assert (Hlook : ∀ n d, nonceStore (sweep now st) !! n = Some d
                  ↔ nonceStore st !! n = Some d ∧ ¬ (expiresAt d < now)%Z).
  { intros n d. unfold sweep. simpl. by rewrite map_lookup_filter_Some. }
  split_and!; [done|done|]. intros Hle.
  unfold toggleHidden.
  destruct (JS.parseInt10 (params_id req)) as [eid|]; [|done].
  destruct (JS.truthy (message req)) as [m|]; [|done].
  destruct (JS.truthy (signature req)) as [sg|]; [|done].
  destruct (JS.truthy (req_nonce req)) as [n|]; [|done].
  destruct (nonceStore st !! n) as [d|] eqn:Hd.
  - destruct (decide (expiresAt d < now)%Z) as [Hexp|Hexp].
    + assert (nonceStore (sweep now st) !! n = None) as ->.
      { destruct (nonceStore (sweep now st) !! n) as [d'|] eqn:Hs; [|done].
        apply Hlook in Hs as [Hs ?]. congruence. }
      assert ((expiresAt d <? now')%Z = true) as -> by (apply Z.ltb_lt; lia).
      by destruct (negb _).
    + assert (nonceStore (sweep now st) !! n = Some d) as ->.
      { by apply Hlook. }
      repeat case_match; simpl; done.
  - assert (nonceStore (sweep now st) !! n = None) as ->; [|done].
    destruct (nonceStore (sweep now st) !! n) as [d'|] eqn:Hs; [|done].
    apply Hlook in Hs as [Hs ?]. congruence.
Qed.

End WithVerifier.

(** X27: the metadata save route stores the parsed record whole under its
    election id when it carries no hidden field: the record read back for
    that id is exactly the one saved, so whatever was stored before for the
    election, a hidden flag included, is gone, and no other election and no
    nonce changes; a body that does not parse or that carries a hidden field
    is answered 400 and changes nothing. *)
Theorem post_metadata_replaces_record (parsed : option ElectionMetadata)
    (st : Server) (id : string) :
  let st' := (postElectionMetadata parsed st).1 in
  let reply := (postElectionMetadata parsed st).2 in
  (∀ data, parsed = Some data → hidden data = None →
     reply = Saved
     ∧ nonceStore st' = nonceStore st
     ∧ (∀ k, k ≠ electionId data → storage st' !! k = storage st !! k)
     ∧ (JS.parseInt10 id = Some (electionId data) →
        getElectionMetadataRoute id st' = Found data))
  ∧ ((parsed = None ∨ ∃ data, parsed = Some data ∧ is_Some (hidden data)) →
       st' = st ∧ ∃ error, reply = Failure 400 error).
Proof.
  unfold postElectionMetadata. split.
  - intros data -> Hh. rewrite Hh. simpl. split_and!; try done.
    + intros k Hk. unfold saveElectionMetadata.
      by rewrite storage_lookup_insert_ne.
    + intros Hid. unfold getElectionMetadataRoute, getElectionMetadata.
      rewrite Hid. simpl. unfold saveElectionMetadata.
      by rewrite storage_lookup_insert_eq.
  - intros [->|(data & -> & [h Hh])]; [by eauto|]. rewrite Hh. by eauto.
Qed.

(** The keys after [Map.prototype.set] are the key set and the keys
    before, each key once if they were so before. *)
Lemma entries_set_keys k v es x :
  x ∈ (entries_set k v es).*1 ↔ x = k ∨ x ∈ es.*1.
Proof.
  induction es as [|[k' m] es IH]; cbn [entries_set].
  - rewrite fmap_cons, elem_of_cons. done.
  - destruct (decide (k' = k)) as [->|Hne];
      rewrite !fmap_cons, !elem_of_cons; cbn [fst].
    + tauto.
    + rewrite IH. tauto.
Qed.

Lemma entries_set_NoDup k v es : NoDup es.*1 → NoDup (entries_set k v es).*1.
Proof.
  induction es as [|[k' m] es IH]; cbn [entries_set].
  - intros _. rewrite fmap_cons. apply NoDup_singleton.
  - rewrite fmap_cons. intros [Hnotin Hnd]%list.NoDup_cons. cbn [fst] in *.
    destruct (decide (k' = k)) as [->|Hne]; rewrite fmap_cons; cbn [fst].
    + by apply list.NoDup_cons.
    + apply list.NoDup_cons. split; [|by apply IH].
      rewrite entries_set_keys. intros [?|?]; [congruence|done].
Qed.

(** With each key once, the entries are what [Map.prototype.get] finds. *)
Lemma entries_get_Some es k m :
  NoDup es.*1 → (k, m) ∈ es ↔ entries_get k es = Some m.
Proof.
  induction es as [|[k' m'] es IH]; simpl; intros Hnd.
  - split; [by intros ?%not_elem_of_nil|done].
  - apply list.NoDup_cons in Hnd as [Hnotin Hnd]. rewrite elem_of_cons.
    destruct (decide (k' = k)) as [->|Hne].
    + split.
      * intros [?|Hin]; [by simplify_eq|]. exfalso. apply Hnotin.
        apply list_elem_of_fmap. by exists (k, m).
      * intros ?. simplify_eq. by left.
    + rewrite <- IH by done. split; [|by right].
      intros [?|?]; [by simplify_eq|done].
Qed.

Lemma entries_set_new k v es :
  entries_get k es = None → entries_set k v es = es ++ [(k, v)].
Proof.
  induction es as [|[k' m] es IH]; simpl; [done|].
  destruct (decide (k' = k)); [done|]. intros H. by rewrite IH.
Qed.

Lemma entries_set_at k v es i m :
  NoDup es.*1 → es !! i = Some (k, m) →
  entries_set k v es = <[i := (k, v)]> es.
Proof.
  revert i. induction es as [|[k' m'] es IH]; intros i Hnd Hi; [done|].
  simpl in Hnd. apply list.NoDup_cons in Hnd as [Hnotin Hnd]. simpl.
  destruct i as [|i]; simpl in *.
  - simplify_eq. by rewrite decide_True.
  - rewrite decide_False.
    + by rewrite (IH i).
    + intros ->. apply Hnotin. apply list_elem_of_fmap. exists (k, m).
      split; [done|]. by eapply list_elem_of_lookup_2.
Qed.

Lemma getAll_save data s :
  getAllElectionMetadata (saveElectionMetadata data s)
  = (entries_set (electionId data) data (electionMetadata s)).*2.
Proof. reflexivity. Qed.

Lemma keyed_save m s : keyed s → keyed (saveElectionMetadata m s).
Proof.
  intros [Hnd Hk]. split.
  - by apply entries_set_NoDup.
  - intros k m'. unfold saveElectionMetadata.
    destruct (decide (electionId m = k)) as [<-|Hne].
    + rewrite storage_lookup_insert_eq. by intros [= <-].
    + rewrite storage_lookup_insert_ne by done. apply Hk.
Qed.

(** X28: the entries stay those of a map, every record under its own
    election id, through [saveElectionMetadata], the save route and the
    toggle route; then the list route returns each stored election
    exactly once: the ids of the listed records are pairwise different,
    and a record is listed exactly when it is the one stored under its id.
    The list is in the order of first insertion: saving a record for a
    new id puts it at the end, saving one for a stored id replaces the
    record where it stands. *)
Theorem metadata_listing_keyed (verifyMessage : string → string → option string)
    (now : Z) (req : ToggleRequest) (parsed : option ElectionMetadata)
    (st : Server) :
  keyed (storage st) →
  keyed (storage (toggleHidden verifyMessage now req st).1.1)
  ∧ keyed (storage (postElectionMetadata parsed st).1)
  ∧ NoDup (electionId <$> getAllElectionMetadata (storage st))
  ∧ (∀ m, m ∈ getAllElectionMetadata (storage st)
          ↔ storage st !! electionId m = Some m)
  ∧ (∀ data, storage st !! electionId data = None →
       getAllElectionMetadata (saveElectionMetadata data (storage st))
       = getAllElectionMetadata (storage st) ++ [data])
  ∧ (∀ data i m,
       getAllElectionMetadata (storage st) !! i = Some m →
       electionId m = electionId data →
       getAllElectionMetadata (saveElectionMetadata data (storage st))
       = <[i := data]> (getAllElectionMetadata (storage st))).
Proof.
  intros Hk.
  assert (Hsave : ∀ m, keyed (saveElectionMetadata m (storage st)))
    by (intros m; by apply keyed_save).
  destruct Hk as [Hnd Hk].
  assert (Hown : ∀ k m, (k, m) ∈ electionMetadata (storage st) →
                        electionId m = k).
  { intros k m Hin. apply Hk. by apply entries_get_Some. }
  split_and!.
  - unfold toggleHidden. repeat case_match; simpl; done || apply Hsave.
  - unfold postElectionMetadata. repeat case_match; simpl; done || apply Hsave.
  - unfold getAllElectionMetadata.
    assert (Heq : electionId <$> (electionMetadata (storage st)).*2
                  = (electionMetadata (storage st)).*1).
    { rewrite <- list_fmap_compose. apply list_fmap_ext.
      intros i [k m] Hl%list_elem_of_lookup_2. simpl. by apply Hown. }
    by rewrite Heq.
  - intros m. unfold getAllElectionMetadata. rewrite list_elem_of_fmap. split.
    + intros ([k m'] & -> & Hl). simpl.
      rewrite (Hown _ _ Hl). by apply entries_get_Some.
    + intros Hl. exists (electionId m, m). split; [done|].
      by apply entries_get_Some.
  - intros data Hnone. rewrite getAll_save.
    rewrite entries_set_new by done. by rewrite fmap_app.
  - intros data i m Hi Hid. rewrite getAll_save.
    unfold getAllElectionMetadata in *.
    apply list_lookup_fmap_Some in Hi as ([k m'] & Hm & Hl). simpl in Hm.
    subst m'. assert (Hkm : electionId m = k).
    { apply Hown. by eapply list_elem_of_lookup_2. }
    rewrite (entries_set_at _ _ _ i m) by (done || congruence).
    by rewrite list_fmap_insert.
Qed.

Import GatewayFixture.

Lemma messagePattern_exact_witness :
  messagePattern message5 = Some ("5", nonce5).
Proof.
  apply (proj2 (messagePattern_exact message5 "5" nonce5)).
  vm_compute. repeat split; discriminate.
Defined.

Lemma distinct_random_distinct_nonces_witness :
  let st1 := (getNonce 1000 (replicate 32 xab) "5" server0).1.1 in
  let st2 := (getNonce 1500 (replicate 32 xcd) "6" st1).1.1 in
  nonceStore st2 !! JS.to_hex (replicate 32 xab)
  = Some (mkNonceData (JS.to_hex (replicate 32 xab)) (JS.Fin 5) (1000 + 300000))
  ∧ nonceStore st2 !! JS.to_hex (replicate 32 xcd)
    = Some (mkNonceData (JS.to_hex (replicate 32 xcd)) (JS.Fin 6) (1500 + 300000))
  ∧ String.length (JS.to_hex (replicate 32 xab)) = 2 * length (replicate 32 xab)
  ∧ storage st2 = storage server0
  ∧ (∀ n, n ≠ JS.to_hex (replicate 32 xab) → n ≠ JS.to_hex (replicate 32 xcd) →
          nonceStore st2 !! n = nonceStore server0 !! n)
  ∧ (∀ now r id, JS.parseInt10 id = None →
       getNonce now r id server0
       = (server0, mkResponse 400 (ErrorBody "Invalid election ID"), [])).
Proof.
  apply (distinct_random_distinct_nonces 1000 1500 (replicate 32 xab)
           (replicate 32 xcd) "5" "6" (JS.Fin 5) (JS.Fin 6) server0).
  - vm_compute. discriminate.
  - vm_compute. reflexivity.
  - vm_compute. reflexivity.
Defined.

Lemma toggle_failure_keeps_metadata_witness :
  let st' := (toggleHidden verifier 2000 (request "6" "sig-owner") server5).1.1 in
  let resp := (toggleHidden verifier 2000 (request "6" "sig-owner") server5).1.2 in
  (status resp ≠ 200%N → storage st' = storage server5)
  ∧ (∀ k, JS.parseInt10 (params_id (request "6" "sig-owner")) ≠ Some k →
          storage st' !! k = storage server5 !! k)
  ∧ (∀ n d, nonceStore st' !! n = Some d → nonceStore server5 !! n = Some d).
Proof.
  apply (toggle_failure_keeps_metadata verifier 2000 (request "6" "sig-owner")
           server5).
Defined.

Lemma expired_nonce_rejected_witness :
  let st' := (toggleHidden verifier 400000 (request "5" "sig-owner") server5).1.1 in
  let resp := (toggleHidden verifier 400000 (request "5" "sig-owner") server5).1.2 in
  status resp ≠ 200%N ∧ storage st' = storage server5
  ∧ (JS.parseInt10 (params_id (request "5" "sig-owner"))
     = Some (Routes.electionId (mkNonceData nonce5 (JS.Fin 5) 301000)) →
     is_Some (JS.truthy (message (request "5" "sig-owner"))) →
     is_Some (JS.truthy (signature (request "5" "sig-owner"))) →
     resp = mkResponse 401 (ErrorBody "Nonce expired")
     ∧ nonceStore st' = delete nonce5 (nonceStore server5)).
Proof.
  apply (expired_nonce_rejected verifier 400000 (request "5" "sig-owner") server5
           nonce5 (mkNonceData nonce5 (JS.Fin 5) 301000));
    vm_compute; reflexivity.
Defined.

Lemma issued_nonce_toggles_witness :
  status (toggleHidden verifier 301000 (request "5" "sig-owner") server5).1.2
  = 200%N
  ∧ nonceStore (toggleHidden verifier 301000 (request "5" "sig-owner") server5).1.1
      !! nonce5 = None.
Proof.
  refine (proj1 (issued_nonce_toggles verifier 1000 301000 (replicate 32 xab)
                   server0 "5" "5" "sig-owner" "0xOwner" (JS.Fin 5)
                   _ _ _ _ _ _ _) _).
  all: first [ discriminate | vm_compute; reflexivity | vm_compute; discriminate ].
Defined.

Lemma sweep_only_expired_witness :
  (status (toggleHidden verifier 3000 (request "5" "sig-owner")
             (sweep 2000 server5)).1.2 = 200%N
   ↔ status (toggleHidden verifier 3000 (request "5" "sig-owner") server5).1.2
     = 200%N)
  ∧ storage (toggleHidden verifier 3000 (request "5" "sig-owner")
               (sweep 2000 server5)).1.1
    = storage (toggleHidden verifier 3000 (request "5" "sig-owner") server5).1.1.
Proof.
  refine (proj2 (proj2 (sweep_only_expired verifier 2000 3000
                          (request "5" "sig-owner") server5)) _).
  vm_compute. discriminate.
Defined.

Lemma post_metadata_replaces_record_witness :
  let data := mkMetadata (JS.Fin 5) (Some "Budget vote, round two") None None
                         None None None in
  let st := (toggleHidden verifier 2000 (request "5" "sig-owner") server5).1.1 in
  hidden <$> storage st !! JS.Fin 5 = Some (Some true)
  ∧ (postElectionMetadata (Some data) st).2 = Saved
  ∧ getElectionMetadataRoute "5" (postElectionMetadata (Some data) st).1
    = Found data.
Proof.
  intros data st. split; [vm_compute; reflexivity|].
  destruct (proj1 (post_metadata_replaces_record (Some data) st "5") data
              eq_refl eq_refl) as (H1 & _ & _ & H4).
  split; [exact H1|]. apply H4. vm_compute. reflexivity.
Defined.

Lemma keyed_server5 : keyed (storage server5).
Proof.
  apply (keyed_save described ∅). split; [constructor|done].
Qed.

Lemma metadata_listing_keyed_witness :
  keyed (storage (toggleHidden verifier 2000 (request "5" "sig-owner") server5).1.1)
  ∧ keyed (storage (postElectionMetadata (Some described) server5).1)
  ∧ NoDup (electionId <$> getAllElectionMetadata (storage server5))
  ∧ (∀ m, m ∈ getAllElectionMetadata (storage server5)
          ↔ storage server5 !! electionId m = Some m)
  ∧ (∀ data, storage server5 !! electionId data = None →
       getAllElectionMetadata (saveElectionMetadata data (storage server5))
       = getAllElectionMetadata (storage server5) ++ [data])
  ∧ (∀ data i m,
       getAllElectionMetadata (storage server5) !! i = Some m →
       electionId m = electionId data →
       getAllElectionMetadata (saveElectionMetadata data (storage server5))
       = <[i := data]> (getAllElectionMetadata (storage server5))).
Proof.
  apply (metadata_listing_keyed verifier 2000 (request "5" "sig-owner")
           (Some described) server5).
  apply keyed_server5.
Defined.

(** The list route follows the order of first insertion, not the order
    of the ids: records saved for elections 7 and then 3 come after the
    record of election 5, and saving election 5 again keeps it first. *)
Example listing_in_insertion_order :
  let record (id : Z) := mkMetadata (JS.Fin id) None None None None None None in
  let st := (postElectionMetadata (Some (record 3%Z))
               (postElectionMetadata (Some (record 7%Z)) server5).1).1 in
  electionId <$> getAllElectionMetadata (storage st)
  = [JS.Fin 5; JS.Fin 7; JS.Fin 3]
  ∧ getAllElectionMetadata (storage (postElectionMetadata (Some (record 5%Z)) st).1)
    = [record 5%Z; record 7%Z; record 3%Z].
Proof. vm_compute. done. Qed.

End GatewayExtra.

(** * The form schema *)

Module SchemaExtra.

Import Schema.

Lemma span_all f s :
  JS.all_chars f s = true → JS.span f s = (s, EmptyString).
Proof.
  induction s as [|c s IH]; simpl; [done|].
  intros [Hc Hs]%andb_true_iff. by rewrite Hc, IH.
Qed.

Lemma trim_white_space s : JS.all_chars JS.is_space s = true → JS.trim s = EmptyString.
Proof. intros H. unfold JS.trim. by rewrite (span_all _ _ H). Qed.

(** X29: what the schema accepts it returns with every label trimmed, the
    other fields as they were; the length check of a label runs before the
    trimming, so an accepted input with a label made only of white space
    yields an empty label, and the schema's own output is then refused when
    parsed again. *)
Theorem schema_trims_after_length_check (i o : CreateElectionInput) :
  createElectionSchema i = Some o →
  title o = title i ∧ description o = description i
  ∧ votingStartTime o = votingStartTime i
  ∧ votingEndTime o = votingEndTime i
  ∧ resultRevealTime o = resultRevealTime i
  ∧ imageUrl o = imageUrl i
  ∧ choiceLabels o = map JS.trim (choiceLabels i)
  ∧ length (choiceLabels o) = length (choiceLabels i)
  ∧ (∀ l, l ∈ choiceLabels i → JS.all_chars JS.is_space l = true →
          EmptyString ∈ choiceLabels o ∧ createElectionSchema o = None).
Proof.
  unfold createElectionSchema. intros H.
  destruct (createElectionSchema_issues i) eqn:Hi; [|done]. simplify_eq. simpl.
  split_and!; [done|done|done|done|done|done|done|by rewrite length_map|].
  intros l Hl Hsp.
  assert (Hin : EmptyString ∈ map JS.trim (choiceLabels i)).
  { apply list_elem_of_fmap. exists l. split; [|done].
    by rewrite trim_white_space. }
  split; [done|]. unfold createElectionSchema_issues. simpl.
  assert (Hiss : concat (map label_issues (map JS.trim (choiceLabels i))) ≠ []).
  { revert Hin. generalize (map JS.trim (choiceLabels i)).
    induction l0 as [|x xs IH]; intros Hin; [by apply not_elem_of_nil in Hin|].
    apply elem_of_cons in Hin as [<-|Hin]; simpl; [done|].
    intros Happ. apply app_eq_nil in Happ as [_ ?]. by apply IH. }
  destruct (_ ++ _) eqn:Happ; [|done].
  repeat match goal with
         | H : _ ++ _ = [] |- _ => apply app_eq_nil in H as [? ?]
         end. done.
Qed.

Lemma schema_trims_after_length_check_witness :
  let i := mkInput "Vote" None ["Yes"; "  "] None None None None in
  let o := mkInput "Vote" None ["Yes"; EmptyString] None None None None in
  title o = title i ∧ description o = description i
  ∧ votingStartTime o = votingStartTime i
  ∧ votingEndTime o = votingEndTime i
  ∧ resultRevealTime o = resultRevealTime i
  ∧ imageUrl o = imageUrl i
  ∧ choiceLabels o = map JS.trim (choiceLabels i)
  ∧ length (choiceLabels o) = length (choiceLabels i)
  ∧ (∀ l, l ∈ choiceLabels i → JS.all_chars JS.is_space l = true →
          EmptyString ∈ choiceLabels o ∧ createElectionSchema o = None).
Proof.
  apply (schema_trims_after_length_check
           (mkInput "Vote" None ["Yes"; "  "] None None None None)
           (mkInput "Vote" None ["Yes"; EmptyString] None None None None)).
  vm_compute. reflexivity.
Defined.

End SchemaExtra.
